(** * A shallow embedding of the MIPS I core of [src/vm.hpp]

    The class [VirtualMachine] is embedded as a record; its private
    methods [extract], [fetch] and [cycle] become functions in a small
    state-and-outcome monad.  Machine integers are integers of [Z] with
    the conversions of the C++ code written out.

    Data assumptions (the usual LP64 ABI the code is written for, see the
    64-bit masks in [mult]/[multu]): [unsigned] and [int] have 32 bits,
    [short] 16, [char] is signed and has 8, [long], [unsigned long] and
    [size_t] have 64.  Conversions between integer types and left shifts
    of [int] are two's complement, as C++20 fixes them.  What the language
    leaves undefined (overflow of an arithmetic operation on [int],
    division by zero) ends the computation with the outcome [Undefined].
    The operands of an expression are evaluated from left to right, the
    right-hand side of an assignment before its left-hand side. *)

From stdpp Require Import base list.
From Stdlib Require Import ZArith Lia.

Local Open Scope Z_scope.

(** ** Integer conversions *)

(** Conversion to [unsigned] (and arithmetic on [unsigned]): modulo 2^32. *)
Definition u32 (z : Z) : Z := z mod 2 ^ 32.

(** Conversion to [unsigned long] / [size_t]: modulo 2^64. *)
Definition u64 (z : Z) : Z := z mod 2 ^ 64.

(** Conversion to [unsigned short] and to [unsigned char]. *)
Definition u16 (z : Z) : Z := z mod 2 ^ 16.
Definition u8 (z : Z) : Z := z mod 2 ^ 8.

(** [static_cast<int>], [static_cast<short>], [static_cast<char>]: the
    two's-complement reading of the low 32, 16 and 8 bits. *)
Definition s32 (z : Z) : Z :=
  if u32 z <? 2 ^ 31 then u32 z else u32 z - 2 ^ 32.
Definition s16 (z : Z) : Z :=
  if u16 z <? 2 ^ 15 then u16 z else u16 z - 2 ^ 16.
Definition s8 (z : Z) : Z :=
  if u8 z <? 2 ^ 7 then u8 z else u8 z - 2 ^ 8.

(** The values an [int] can hold. *)
Definition in_int (z : Z) : bool := (- 2 ^ 31 <=? z) && (z <? 2 ^ 31).

(** ** The decoder *)

Inductive ExtractKind : Type := OP | RS | RT | RD | SHMT | FN | ADDR | IMMD.

(** [VirtualMachine::extract].  The [default:] arm of the source's switch
    is unreachable for a value of the enumeration and has no counterpart. *)
Definition extract (value : Z) (kind : ExtractKind) : Z :=
  match kind with
  | OP => Z.shiftr (Z.land value 0xFC000000) 26
  | RS => Z.shiftr (Z.land value 0x03E00000) 21
  | RT => Z.shiftr (Z.land value 0x001F0000) 16
  | RD => Z.shiftr (Z.land value 0x0000F800) 11
  | SHMT => Z.shiftr (Z.land value 0x000007C0) 6
  | FN => Z.land value 0x0000003F
  | ADDR => u32 (Z.shiftl (Z.land value 0x03FFFFFF) 2)
  | IMMD => Z.land value 0x0000FFFF
  end.

(** ** Architectural state *)

(** The data members of [VirtualMachine].  [registers] is the
    [std::array<unsigned, 32>], [memory] the [std::vector<unsigned char>]. *)
Record VirtualMachine : Type := mkVM {
  registers : list Z;
  memory : list Z;
  ip : Z;
  hi : Z;
  lo : Z
}.

(** ** Outcomes and the execution monad *)

(** The container whose [at()] threw [std::out_of_range]. *)
Inductive exception : Type := RegistersOutOfRange | MemoryOutOfRange.

(** How a piece of the code can end: normally, by an uncaught exception,
    by [exit(1)], or by an operation the C++ language leaves undefined
    (signed overflow, division by zero). *)
Inductive outcome (A : Type) : Type :=
| Ok (a : A)
| Thrown (e : exception)
| Exited
| Undefined.
Arguments Ok {A} a.
Arguments Thrown {A} e.
Arguments Exited {A}.
Arguments Undefined {A}.

Definition M (A : Type) : Type := VirtualMachine → outcome (A * VirtualMachine).

#[global] Instance M_ret : MRet M := λ A a vm, Ok (a, vm).

#[global] Instance M_bind : MBind M := λ A B f m vm,
  match m vm with
  | Ok (a, vm') => f a vm'
  | Thrown e => Thrown e
  | Exited => Exited
  | Undefined => Undefined
  end.

Definition throw {A} (e : exception) : M A := λ _, Thrown e.
Definition exit_1 {A} : M A := λ _, Exited.
Definition undefined {A} : M A := λ _, Undefined.

(** *** Access to the data members *)

Definition get_ip : M Z := λ vm, Ok (ip vm, vm).
Definition set_ip (v : Z) : M unit := λ vm,
  Ok (tt, mkVM (registers vm) (memory vm) (u32 v) (hi vm) (lo vm)).
Definition get_hi : M Z := λ vm, Ok (hi vm, vm).
Definition set_hi (v : Z) : M unit := λ vm,
  Ok (tt, mkVM (registers vm) (memory vm) (ip vm) (u32 v) (lo vm)).
Definition get_lo : M Z := λ vm, Ok (lo vm, vm).
Definition set_lo (v : Z) : M unit := λ vm,
  Ok (tt, mkVM (registers vm) (memory vm) (ip vm) (hi vm) (u32 v)).

(** [this->registers.at(i)] read: throws when [i] is not below the size. *)
Definition reg_at (i : Z) : M Z := λ vm,
  match registers vm !! Z.to_nat i with
  | Some v => Ok (v, vm)
  | None => Thrown RegistersOutOfRange
  end.

(** [this->registers.at(i) = v]: the value is converted to [unsigned]. *)
Definition reg_set (i : Z) (v : Z) : M unit := λ vm,
  match registers vm !! Z.to_nat i with
  | Some _ =>
      Ok (tt, mkVM (<[Z.to_nat i := u32 v]> (registers vm)) (memory vm)
                   (ip vm) (hi vm) (lo vm))
  | None => Thrown RegistersOutOfRange
  end.

(** [this->memory.at(i)] read; [i] is the index already converted to
    [size_t]. *)
Definition mem_at (i : Z) : M Z := λ vm,
  match memory vm !! Z.to_nat i with
  | Some v => Ok (v, vm)
  | None => Thrown MemoryOutOfRange
  end.

(** [this->memory.at(i) = v]: the value is converted to [unsigned char]. *)
Definition mem_set (i : Z) (v : Z) : M unit := λ vm,
  match memory vm !! Z.to_nat i with
  | Some _ =>
      Ok (tt, mkVM (registers vm) (<[Z.to_nat i := u8 v]> (memory vm))
                   (ip vm) (hi vm) (lo vm))
  | None => Thrown MemoryOutOfRange
  end.

(** The result of an arithmetic operation on [int]: undefined when the
    exact result is not representable. *)
Definition int_result (z : Z) : M Z :=
  if in_int z then mret z else undefined.

(** ** The executor *)

(** [VirtualMachine::fetch]: four bytes at [ip], big endian.  [ip + k] is
    computed on [unsigned]; the [int] value of the expression is converted
    to [unsigned] by the return. *)
Definition fetch : M Z :=
  pc ← get_ip;
  b0 ← mem_at pc;
  b1 ← mem_at (u32 (pc + 1));
  b2 ← mem_at (u32 (pc + 2));
  b3 ← mem_at (u32 (pc + 3));
  mret (u32 (Z.lor (Z.lor (Z.lor (Z.shiftl b0 24) (Z.shiftl b1 16))
                          (Z.shiftl b2 8)) b3)).

(** [this->ip += 4]. *)
Definition advance : M unit :=
  pc ← get_ip; set_ip (pc + 4).

(** [this->ip += 4 + (static_cast<short>(extract(instruction, IMMD)) << 2)]:
    the right-hand side is an [int] (no overflow is possible), the sum is
    taken on [unsigned]. *)
Definition branch (instruction : Z) : M unit :=
  pc ← get_ip;
  set_ip (pc + (4 + Z.shiftl (s16 (extract instruction IMMD)) 2)).

(** The local [int address] of lb, lh, lw, sb, sh and sw. *)
Definition int_address (instruction : Z) : M Z :=
  rs ← reg_at (extract instruction RS);
  int_result (s32 rs + s16 (extract instruction IMMD)).

(** The local [unsigned address] of lbu and lhu. *)
Definition unsigned_address (instruction : Z) : M Z :=
  rs ← reg_at (extract instruction RS);
  mret (u32 (rs + extract instruction IMMD)).

(** *** J types *)

(** [case 0x02] *)
Definition op_j (instruction : Z) : M unit :=
  pc ← get_ip;
  set_ip (Z.lor (Z.land pc 0xF0000000) (extract instruction ADDR)).

(** [case 0x03] *)
Definition op_jal (instruction : Z) : M unit :=
  pc ← get_ip;
  reg_set 31 (pc + 4);;
  pc ← get_ip;
  set_ip (Z.lor (Z.land pc 0xF0000000) (extract instruction ADDR)).

(** *** I types *)

(** [case 0x20] *)
Definition op_lb (instruction : Z) : M unit :=
  address ← int_address instruction;
  b ← mem_at (u64 address);
  let value := s8 b in
  reg_set (extract instruction RT) value;;
  advance.

(** [case 0x24] *)
Definition op_lbu (instruction : Z) : M unit :=
  address ← unsigned_address instruction;
  b ← mem_at address;
  let value := u8 b in
  reg_set (extract instruction RT) value;;
  advance.

(** [case 0x21] *)
Definition op_lh (instruction : Z) : M unit :=
  address ← int_address instruction;
  b0 ← mem_at (u64 address);
  address1 ← int_result (address + 1);
  b1 ← mem_at (u64 address1);
  let value := s16 (Z.lor (Z.shiftl b0 8) b1) in
  reg_set (extract instruction RT) value;;
  advance.

(** [case 0x25]: the halfword is stored in an [unsigned char]. *)
Definition op_lhu (instruction : Z) : M unit :=
  address ← unsigned_address instruction;
  b0 ← mem_at address;
  b1 ← mem_at (u32 (address + 1));
  let value := u8 (Z.lor (Z.shiftl b0 8) b1) in
  reg_set (extract instruction RT) value;;
  advance.

(** [case 0x23] *)
Definition op_lw (instruction : Z) : M unit :=
  address ← int_address instruction;
  b0 ← mem_at (u64 address);
  address1 ← int_result (address + 1);
  b1 ← mem_at (u64 address1);
  address2 ← int_result (address + 2);
  b2 ← mem_at (u64 address2);
  address3 ← int_result (address + 3);
  b3 ← mem_at (u64 address3);
  let value := s32 (Z.lor (Z.lor (Z.lor (Z.shiftl b0 24) (Z.shiftl b1 16))
                                 (Z.shiftl b2 8)) b3) in
  reg_set (extract instruction RT) value;;
  advance.

(** [case 0x0F]: the shifted immediate is stored in an [unsigned short],
    and the register written is the one of the RD field. *)
Definition op_lui (instruction : Z) : M unit :=
  let value := u16 (u32 (Z.shiftl (extract instruction IMMD) 16)) in
  reg_set (extract instruction RD) value;;
  advance.

(** [case 0x28] *)
Definition op_sb (instruction : Z) : M unit :=
  address ← int_address instruction;
  v ← reg_at (extract instruction RT);
  mem_set (u64 address) v;;
  advance.

(** [case 0x29] *)
Definition op_sh (instruction : Z) : M unit :=
  address ← int_address instruction;
  let rt := extract instruction RT in
  v ← reg_at rt;
  mem_set (u64 address) (Z.shiftr (Z.land v 0xFF00) 8);;
  v ← reg_at rt;
  address1 ← int_result (address + 1);
  mem_set (u64 address1) (Z.land v 0x00FF);;
  advance.

(** [case 0x2B] *)
Definition op_sw (instruction : Z) : M unit :=
  address ← int_address instruction;
  let rt := extract instruction RT in
  v ← reg_at rt;
  mem_set (u64 address) (Z.shiftr (Z.land v 0xFF000000) 24);;
  v ← reg_at rt;
  address1 ← int_result (address + 1);
  mem_set (u64 address1) (Z.shiftr (Z.land v 0x00FF0000) 16);;
  v ← reg_at rt;
  address2 ← int_result (address + 2);
  mem_set (u64 address2) (Z.shiftr (Z.land v 0x0000FF00) 8);;
  v ← reg_at rt;
  address3 ← int_result (address + 3);
  mem_set (u64 address3) (Z.land v 0x000000FF);;
  advance.

(** [case 0x08]: the body is a bare [break]. *)
Definition op_addi (instruction : Z) : M unit :=
  mret tt.

(** [case 0x09]: [int + unsigned] is an addition on [unsigned]. *)
Definition op_addiu (instruction : Z) : M unit :=
  rs ← reg_at (extract instruction RS);
  let sum := s32 (u32 (s16 (extract instruction IMMD) + rs)) in
  reg_set (extract instruction RT) sum;;
  advance.

(** [case 0x06] *)
Definition op_blez (instruction : Z) : M unit :=
  r ← reg_at (extract instruction RS);
  let rs := s32 r in
  if rs <=? 0 then branch instruction else advance.

(** [case 0x07]: [rs] is declared [unsigned]. *)
Definition op_bgtz (instruction : Z) : M unit :=
  rs ← reg_at (extract instruction RS);
  if 0 <? rs then branch instruction else advance.

(** [case 0x04] *)
Definition op_beq (instruction : Z) : M unit :=
  rs ← reg_at (extract instruction RS);
  rt ← reg_at (extract instruction RT);
  if rs =? rt then branch instruction else advance.

(** [case 0x05] *)
Definition op_bne (instruction : Z) : M unit :=
  rs ← reg_at (extract instruction RS);
  rt ← reg_at (extract instruction RT);
  if negb (rs =? rt) then branch instruction else advance.

(** [case 0x0E]: [unsigned ^ short] converts the [short] to [unsigned]. *)
Definition op_xori (instruction : Z) : M unit :=
  rs ← reg_at (extract instruction RS);
  let immd := s16 (extract instruction IMMD) in
  reg_set (extract instruction RT) (Z.lxor rs (u32 immd));;
  advance.

(** *** R types (opcode 0), by function field *)

(** [case 0x0] (sll) *)
Definition fn_sll (instruction : Z) : M unit :=
  rt ← reg_at (extract instruction RT);
  let shmt := extract instruction SHMT in
  reg_set (extract instruction RD) (u32 (Z.shiftl rt shmt));;
  advance.

(** [case 0x02] (srl) *)
Definition fn_srl (instruction : Z) : M unit :=
  rt ← reg_at (extract instruction RT);
  let shmt := extract instruction SHMT in
  reg_set (extract instruction RD) (Z.shiftr rt shmt);;
  advance.

(** [case 0x29] (sltu); [rd] is a reference obtained by [at()]. *)
Definition fn_sltu (instruction : Z) : M unit :=
  rs ← reg_at (extract instruction RS);
  rt ← reg_at (extract instruction RT);
  reg_set (extract instruction RD) (if rs <? rt then 1 else 0);;
  advance.

(** [case 0x2A] (slt) *)
Definition fn_slt (instruction : Z) : M unit :=
  rs ← reg_at (extract instruction RS);
  rt ← reg_at (extract instruction RT);
  reg_set (extract instruction RD) (if s32 rs <? s32 rt then 1 else 0);;
  advance.

(** [case 0x21] (addu) *)
Definition fn_addu (instruction : Z) : M unit :=
  rs ← reg_at (extract instruction RS);
  rt ← reg_at (extract instruction RT);
  let sum := u32 (rs + rt) in
  reg_set (extract instruction RD) sum;;
  advance.

(** [case 0x20] (add): an addition on [int]. *)
Definition fn_add (instruction : Z) : M unit :=
  rs ← reg_at (extract instruction RS);
  rt ← reg_at (extract instruction RT);
  sum ← int_result (s32 rs + s32 rt);
  reg_set (extract instruction RD) sum;;
  advance.

(** [case 0x19] (multu): [rs * rt] is a product on [unsigned]; only then
    is it widened to [unsigned long]. *)
Definition fn_multu (instruction : Z) : M unit :=
  rs ← reg_at (extract instruction RS);
  rt ← reg_at (extract instruction RT);
  let result := u64 (u32 (rs * rt)) in
  set_hi (Z.shiftr (Z.land result 0xFFFFFFFF00000000) 32);;
  set_lo (Z.land result 0x00000000FFFFFFFF);;
  advance.

(** [case 0x18] (mult): [rs * rt] is a product on [int]; only then is it
    widened to [long].  The first mask is an [unsigned long], so [result]
    is converted to it and the shift is logical. *)
Definition fn_mult (instruction : Z) : M unit :=
  rs ← reg_at (extract instruction RS);
  rt ← reg_at (extract instruction RT);
  result ← int_result (s32 rs * s32 rt);
  set_hi (Z.shiftr (Z.land (u64 result) 0xFFFFFFFF00000000) 32);;
  set_lo (Z.land result 0x00000000FFFFFFFF);;
  advance.

(** [case 0x1B] (divu): [%] and [/] on [unsigned]; a zero divisor is
    undefined behaviour. *)
Definition fn_divu (instruction : Z) : M unit :=
  rs ← reg_at (extract instruction RS);
  rt ← reg_at (extract instruction RT);
  if rt =? 0 then undefined else
  set_hi (rs mod rt);;
  set_lo (rs / rt);;
  advance.

(** [case 0x1A] (div): [%] and [/] on [int] truncate towards zero; a zero
    divisor, or a quotient that is not an [int], is undefined behaviour. *)
Definition fn_div (instruction : Z) : M unit :=
  r ← reg_at (extract instruction RS);
  let rs := s32 r in
  r ← reg_at (extract instruction RT);
  let rt := s32 r in
  if (rt =? 0) || negb (in_int (Z.quot rs rt)) then undefined else
  set_hi (Z.rem rs rt);;
  set_lo (Z.quot rs rt);;
  advance.

(** [case 0x08] (jr) *)
Definition fn_jr (instruction : Z) : M unit :=
  rs ← reg_at (extract instruction RS);
  set_ip rs.

(** [case 0x09] (jalr) *)
Definition fn_jalr (instruction : Z) : M unit :=
  pc ← get_ip;
  reg_set (extract instruction RD) (pc + 4);;
  rs ← reg_at (extract instruction RS);
  set_ip rs.

(** [case 0x24] (and) *)
Definition fn_and (instruction : Z) : M unit :=
  rs ← reg_at (extract instruction RS);
  rt ← reg_at (extract instruction RT);
  reg_set (extract instruction RD) (Z.land rs rt);;
  advance.

(** [case 0x25] (or) *)
Definition fn_or (instruction : Z) : M unit :=
  rs ← reg_at (extract instruction RS);
  rt ← reg_at (extract instruction RT);
  reg_set (extract instruction RD) (Z.lor rs rt);;
  advance.

(** [case 0x27] (nor) *)
Definition fn_nor (instruction : Z) : M unit :=
  rs ← reg_at (extract instruction RS);
  rt ← reg_at (extract instruction RT);
  reg_set (extract instruction RD) (Z.lnot (Z.lor rs rt));;
  advance.

(** [case 0x26] (xor) *)
Definition fn_xor (instruction : Z) : M unit :=
  rs ← reg_at (extract instruction RS);
  rt ← reg_at (extract instruction RT);
  reg_set (extract instruction RD) (Z.lxor rs rt);;
  advance.

(** [case 0x13] (mtlo) *)
Definition fn_mtlo (instruction : Z) : M unit :=
  rs ← reg_at (extract instruction RS);
  set_lo rs;;
  advance.

(** [case 0x11] (mthi) *)
Definition fn_mthi (instruction : Z) : M unit :=
  rs ← reg_at (extract instruction RS);
  set_hi rs;;
  advance.

(** [case 0x10] (mfhi) *)
Definition fn_mfhi (instruction : Z) : M unit :=
  h ← get_hi;
  reg_set (extract instruction RD) h;;
  advance.

(** [case 0x12] (mflo) *)
Definition fn_mflo (instruction : Z) : M unit :=
  l ← get_lo;
  reg_set (extract instruction RD) l;;
  advance.

(** [case 0x0C] (syscall) *)
Definition fn_syscall (instruction : Z) : M unit :=
  advance.

(** The inner [switch (this->extract(instruction, FN))]. *)
Definition r_type (instruction : Z) : M unit :=
  match extract instruction FN with
  | 0x0 => fn_sll instruction
  | 0x02 => fn_srl instruction
  | 0x29 => fn_sltu instruction
  | 0x2A => fn_slt instruction
  | 0x21 => fn_addu instruction
  | 0x20 => fn_add instruction
  | 0x19 => fn_multu instruction
  | 0x18 => fn_mult instruction
  | 0x1B => fn_divu instruction
  | 0x1A => fn_div instruction
  | 0x08 => fn_jr instruction
  | 0x09 => fn_jalr instruction
  | 0x24 => fn_and instruction
  | 0x25 => fn_or instruction
  | 0x27 => fn_nor instruction
  | 0x26 => fn_xor instruction
  | 0x13 => fn_mtlo instruction
  | 0x11 => fn_mthi instruction
  | 0x10 => fn_mfhi instruction
  | 0x12 => fn_mflo instruction
  | 0x0C => fn_syscall instruction
  | _ => exit_1
  end.

(** The outer [switch (this->extract(instruction, OP))]. *)
Definition dispatch (instruction : Z) : M unit :=
  match extract instruction OP with
  | 0x02 => op_j instruction
  | 0x03 => op_jal instruction
  | 0x20 => op_lb instruction
  | 0x24 => op_lbu instruction
  | 0x21 => op_lh instruction
  | 0x25 => op_lhu instruction
  | 0x23 => op_lw instruction
  | 0x0F => op_lui instruction
  | 0x28 => op_sb instruction
  | 0x29 => op_sh instruction
  | 0x2B => op_sw instruction
  | 0x08 => op_addi instruction
  | 0x09 => op_addiu instruction
  | 0x06 => op_blez instruction
  | 0x07 => op_bgtz instruction
  | 0x04 => op_beq instruction
  | 0x05 => op_bne instruction
  | 0x0E => op_xori instruction
  | 0x0 => r_type instruction
  | _ => exit_1
  end.

(** [VirtualMachine::cycle] (the diagnostic printing is left out). *)
Definition cycle : M unit :=
  instruction ← fetch;
  dispatch instruction.

(** The constructor: registers, [hi] and [lo] zeroed, memory empty. *)
Definition VirtualMachine_new (entry : Z) : VirtualMachine :=
  mkVM (replicate 32 0) [] (u32 entry) 0 0.

(** [VirtualMachine::load], from the bytes of the file instead of its
    path: an image of more than 2^32 - 1 bytes is refused with [exit(1)],
    otherwise the memory is resized to the image and filled with it. *)
Definition load (image : list Z) : M unit := λ vm,
  if 2 ^ 32 - 1 <? Z.of_nat (length image) then Exited
  else Ok (tt, mkVM (registers vm) image (ip vm) (hi vm) (lo vm)).

(** [VirtualMachine::execute]: [n] is 100 in the source. *)
Fixpoint cycles (n : nat) : M unit :=
  match n with
  | O => mret tt
  | S n' => cycle;; cycles n'
  end.
Definition execute : M unit := cycles 100.

(** *** Observations on an outcome *)

(** The machine after a run that ended normally. *)
Definition final {A} (o : outcome (A * VirtualMachine)) : option VirtualMachine :=
  match o with
  | Ok (_, vm) => Some vm
  | _ => None
  end.

(** Register [i] of a machine. *)
Definition R (vm : VirtualMachine) (i : nat) : option Z := registers vm !! i.

(** The result of a computation that ended normally. *)
Definition value {A} (o : outcome (A * VirtualMachine)) : option A :=
  match o with
  | Ok (a, _) => Some a
  | _ => None
  end.

(** A machine as the driver sets it up: constructed at [entry], then
    loaded with [image]. *)
Definition boot (image : list Z) (entry : Z) : VirtualMachine :=
  mkVM (replicate 32 0) image (u32 entry) 0 0.

(** The same machine with register [i] holding [v]. *)
Definition with_register (i : nat) (v : Z) (vm : VirtualMachine) : VirtualMachine :=
  mkVM (<[i := v]> (registers vm)) (memory vm) (ip vm) (hi vm) (lo vm).

(** ** Assertions on a computation

    [triple P m Q]: started in a machine satisfying [P], the computation
    [m] does not end by an out-of-range access to the register array, and
    if it ends normally, result and machine satisfy [Q]. *)
Definition triple {A} (P : VirtualMachine → Prop) (m : M A)
    (Q : A → VirtualMachine → Prop) : Prop :=
  ∀ vm, P vm →
    match m vm with
    | Ok (a, vm') => Q a vm'
    | Thrown RegistersOutOfRange => False
    | _ => True
    end.

(** The register array has its 32 entries and [ip] is [p]. *)
Definition at_pc (p : Z) (vm : VirtualMachine) : Prop :=
  length (registers vm) = 32%nat ∧ ip vm = p.

(** The register array has its 32 entries. *)
Definition sized (vm : VirtualMachine) : Prop :=
  length (registers vm) = 32%nat.

(** The instructions whose case ends in [this->ip += 4]: everything the
    dispatcher knows except the jumps (j, jal, jr, jalr), the branches
    (beq, bne, blez, bgtz) and addi. *)
Definition plain_instruction (w : Z) : bool :=
  match extract w OP with
  | 0x02 | 0x03 | 0x04 | 0x05 | 0x06 | 0x07 | 0x08 => false
  | 0x0 => match extract w FN with 0x08 | 0x09 => false | _ => true end
  | _ => true
  end.

(** ** What the specification asks for

    These definitions follow the words of the specification, not the
    code; the theorems compare them with the executor above. *)
Module Spec.

(** "64-bit product; HI ← upper32, LO ← lower32". *)
Definition product_hi (product : Z) : Z := Z.shiftr (u64 product) 32.
Definition product_lo (product : Z) : Z := u32 product.

(** "EA = R[rs] + sign_extend(imm16) (32-bit wrap)". *)
Definition effective_address (rs imm16 : Z) : Z := u32 (rs + s16 imm16).

(** "read_half(a) = (MEM[a]<<8) | MEM[a+1]". *)
Definition read_half (mem : list Z) (a : Z) : option Z :=
  b0 ← mem !! Z.to_nat a;
  b1 ← mem !! Z.to_nat (a + 1);
  Some (Z.lor (Z.shiftl b0 8) b1).

(** "PC ← PC + 4 + (sign_extend(imm16) << 2)". *)
Definition branch_target (p imm16 : Z) : Z :=
  u32 (p + 4 + Z.shiftl (s16 imm16) 2).

(** The 26-bit target field and "(PC & 0xF000_0000) | (target26 << 2)". *)
Definition target26 (w : Z) : Z := Z.land w 0x03FFFFFF.
Definition jump_target (p target26 : Z) : Z :=
  Z.lor (Z.land p 0xF0000000) (Z.shiftl target26 2).

End Spec.

(** ** Concrete machines

    Each is a one-instruction program at address 0, with the registers it
    reads set beforehand. *)

(** [j 0x10] and [jal 0x10]. *)
Definition j_state : VirtualMachine := boot [0x08; 0x00; 0x00; 0x04] 0.
Definition jal_state : VirtualMachine := boot [0x0C; 0x00; 0x00; 0x04] 0.

(** [addiu $8, $0, 5] and [addiu $0, $0, 5]. *)
Definition addiu_state : VirtualMachine := boot [0x24; 0x08; 0x00; 0x05] 0.
Definition addiu_zero_state : VirtualMachine := boot [0x24; 0x00; 0x00; 0x05] 0.

(** [multu $1, $2] with both registers 0xFFFFFFFF. *)
Definition multu_state : VirtualMachine :=
  with_register 1 0xFFFFFFFF (with_register 2 0xFFFFFFFF
    (boot [0x00; 0x22; 0x00; 0x19] 0)).

(** [mult $1, $2] with both registers 0x10000. *)
Definition mult_state : VirtualMachine :=
  with_register 1 0x10000 (with_register 2 0x10000
    (boot [0x00; 0x22; 0x00; 0x18] 0)).

(** [mult $1, $2] with registers -1 and 5. *)
Definition mult_small_state : VirtualMachine :=
  with_register 1 0xFFFFFFFF (with_register 2 5
    (boot [0x00; 0x22; 0x00; 0x18] 0)).

(** [addi $8, $0, 5]. *)
Definition addi_state : VirtualMachine := boot [0x20; 0x08; 0x00; 0x05] 0.

(** [lui $1, 0x1234], with register 2 holding 7. *)
Definition lui_state : VirtualMachine :=
  with_register 2 7 (boot [0x3C; 0x01; 0x12; 0x34] 0).

(** [lbu $2, -1($1)] with register 1 holding 1; in the second machine the
    memory reaches up to address 0x10000. *)
Definition lbu_state : VirtualMachine :=
  with_register 1 1 (boot [0x90; 0x22; 0xFF; 0xFF] 0).
Definition lbu_far_state : VirtualMachine :=
  with_register 1 1
    (boot ([0x90; 0x22; 0xFF; 0xFF] ++ replicate (Z.to_nat 0xFFFC) 0 ++ [0xAB]) 0).

(** [lhu $2, -1($1)] with register 1 holding 1. *)
Definition lhu_negative_state : VirtualMachine :=
  with_register 1 1 (boot [0x94; 0x22; 0xFF; 0xFF] 0).

(** [lhu $1, 4($0)], the halfword 0x1234 at address 4. *)
Definition lhu_state : VirtualMachine :=
  boot [0x94; 0x01; 0x00; 0x04; 0x12; 0x34] 0.

(** [bgtz $1, 3] with register 1 holding 0x80000000. *)
Definition bgtz_state : VirtualMachine :=
  with_register 1 0x80000000 (boot [0x1C; 0x20; 0x00; 0x03] 0).

(** [div $1, $2] and [divu $1, $2] with register 1 holding 7 and
    register 2 holding 0. *)
Definition div_state : VirtualMachine :=
  with_register 1 7 (boot [0x00; 0x22; 0x00; 0x1A] 0).
Definition divu_state : VirtualMachine :=
  with_register 1 7 (boot [0x00; 0x22; 0x00; 0x1B] 0).

(** [divu $1, $2] with register 1 holding 7 and register 2 holding 2. *)
Definition divu_two_state : VirtualMachine :=
  with_register 1 7 (with_register 2 2 (boot [0x00; 0x22; 0x00; 0x1B] 0)).

(** ** The cases of the dispatcher *)

(** The opcodes and the function codes that have a [case] in the two
    switches of [cycle]. *)
Definition known_opcodes : list Z :=
  [0x02; 0x03; 0x20; 0x24; 0x21; 0x25; 0x23; 0x0F; 0x28; 0x29; 0x2B; 0x08;
   0x09; 0x06; 0x07; 0x04; 0x05; 0x0E; 0x0].
Definition known_functions : list Z :=
  [0x0; 0x02; 0x29; 0x2A; 0x21; 0x20; 0x19; 0x18; 0x1B; 0x1A; 0x08; 0x09;
   0x24; 0x25; 0x27; 0x26; 0x13; 0x11; 0x10; 0x12; 0x0C].

(** The instruction words that reach a [case] other than [default:]. *)
Definition recognised (w : Z) : bool :=
  existsb (Z.eqb (extract w OP)) known_opcodes
  && (negb (extract w OP =? 0)
      || existsb (Z.eqb (extract w FN)) known_functions).

(** A computation that never ends by [exit(1)]. *)
Definition never_exits {A} (m : M A) : Prop := ∀ vm, m vm ≠ Exited.

(** ** More concrete machines *)

(** [bne $0, $1, -2] at address 0x20, with register 1 holding 1. *)
Definition bne_state : VirtualMachine :=
  with_register 1 1 (boot (replicate 32 0 ++ [0x14; 0x01; 0xFF; 0xFE]) 0x20).

(** ** Well-formed machines *)

(** The values an [unsigned] and an [unsigned char] can hold. *)
Definition is_word (z : Z) : Prop := 0 ≤ z < 2 ^ 32.
Definition is_byte (z : Z) : Prop := 0 ≤ z < 2 ^ 8.

(** What the types of the data members guarantee, for a memory of [size]
    bytes. *)
Definition well_formed (size : nat) (vm : VirtualMachine) : Prop :=
  length (registers vm) = 32%nat ∧ Forall is_word (registers vm) ∧
  length (memory vm) = size ∧ Forall is_byte (memory vm) ∧
  is_word (ip vm) ∧ is_word (hi vm) ∧ is_word (lo vm).

(** [sw $1, 8($0)] followed by [lw $2, 8($0)] and four bytes of data, with
    register 1 holding 0xDEADBEEF. *)
Definition sw_state : VirtualMachine :=
  with_register 1 0xDEADBEEF
    (boot [0xAC; 0x01; 0x00; 0x08; 0x8C; 0x02; 0x00; 0x08; 0; 0; 0; 0] 0).

(** [sb $1, 8($0)] followed by [lb $2, 8($0)] and data, with register 1
    holding 0x1234ABCD; [sh $1, 8($0)] followed by [lh $2, 8($0)]. *)
Definition sb_state : VirtualMachine :=
  with_register 1 0x1234ABCD
    (boot [0xA0; 0x01; 0x00; 0x08; 0x80; 0x02; 0x00; 0x08; 0; 0; 0; 0] 0).
Definition sh_state : VirtualMachine :=
  with_register 1 0x1234ABCD
    (boot [0xA4; 0x01; 0x00; 0x08; 0x84; 0x02; 0x00; 0x08; 0; 0; 0; 0] 0).

(** [jalr $2, $2] with register 2 holding 0x40. *)
Definition jalr_same_state : VirtualMachine :=
  with_register 2 0x40 (boot [0x00; 0x40; 0x10; 0x09] 0).

(** [lb $2, -4($0)]. *)
Definition lb_negative_state : VirtualMachine :=
  boot [0x80; 0x02; 0xFF; 0xFC] 0.

(** [addiu $2, $1, -1] and [xori $2, $1, 0x8000] with register 1 holding 0. *)
Definition addiu_minus_state : VirtualMachine :=
  boot [0x24; 0x22; 0xFF; 0xFF] 0.
Definition xori_state : VirtualMachine :=
  boot [0x38; 0x22; 0x80; 0x00] 0.

(** [add $3, $1, $2] with registers 1 and 2 holding 0xFFFFFFFF and 5. *)
Definition add_state : VirtualMachine :=
  with_register 1 0xFFFFFFFF (with_register 2 5
    (boot [0x00; 0x22; 0x18; 0x20] 0)).

(** [div $1, $2] with registers 1 and 2 holding -7 and 2. *)
Definition div_two_state : VirtualMachine :=
  with_register 1 0xFFFFFFF9 (with_register 2 2
    (boot [0x00; 0x22; 0x00; 0x1A] 0)).

(** [mthi $1] with register 1 holding 9; [mfhi $3] is 0x00001810. *)
Definition mthi_state : VirtualMachine :=
  with_register 1 9 (boot [0x00; 0x20; 0x00; 0x11] 0).


(** * Properties *)

Arguments extract : simpl never.

(** ** The decoder *)

Lemma u32_small z : 0 ≤ z < 2 ^ 32 → u32 z = z.
Proof. apply Z.mod_small. Qed.

(** A field cut out by a mask whose shifted form is [k] ones has [k] bits. *)
Lemma field_bound (w mask n k : Z) :
  0 ≤ n → 0 ≤ k → Z.shiftr mask n = Z.ones k →
  0 ≤ Z.shiftr (Z.land w mask) n < 2 ^ k.
Proof.
  intros Hn Hk Hm.
  rewrite Z.shiftr_land, Hm, Z.land_ones by done.
  apply Z.mod_pos_bound. by apply Z.pow_pos_nonneg.
Qed.

Lemma extract_RS_bound w : 0 ≤ extract w RS < 32.
Proof. apply (field_bound w _ 21 5); done. Qed.

Lemma extract_RT_bound w : 0 ≤ extract w RT < 32.
Proof. apply (field_bound w _ 16 5); done. Qed.

Lemma extract_RD_bound w : 0 ≤ extract w RD < 32.
Proof. apply (field_bound w _ 11 5); done. Qed.

Lemma extract_IMMD_bound w : 0 ≤ extract w IMMD < 2 ^ 16.
Proof.
  unfold extract. change 0x0000FFFF with (Z.ones 16).
  rewrite Z.land_ones by done. by apply Z.mod_pos_bound.
Qed.

(** The shift of the 26-bit field never leaves 32 bits. *)
Lemma extract_ADDR_shift w :
  extract w ADDR = Z.shiftl (Spec.target26 w) 2.
Proof.
  unfold extract, u32, Spec.target26.
  assert (H : 0 ≤ Z.land w 0x03FFFFFF < 2 ^ 26).
  { change 0x03FFFFFF with (Z.ones 26). rewrite Z.land_ones by done.
    by apply Z.mod_pos_bound. }
  rewrite Z.shiftl_mul_pow2 by done.
  apply Z.mod_small. lia.
Qed.

(** Storing the jump target into [ip] does not truncate it. *)
Lemma jump_target_u32 p w :
  u32 (Z.lor (Z.land p 0xF0000000) (extract w ADDR))
  = Spec.jump_target p (Spec.target26 w).
Proof.
  unfold Spec.jump_target. rewrite <- extract_ADDR_shift. unfold u32.
  rewrite <- Z.land_ones by done.
  rewrite Z.land_lor_distr_l. f_equal.
  - by rewrite <- Z.land_assoc.
  - rewrite Z.land_ones by done. unfold extract, u32.
    by rewrite Z.mod_mod.
Qed.

(** ** Running the monad *)

Lemma bind_Ok {A B} (m : M A) (f : A → M B) vm a vm' :
  m vm = Ok (a, vm') → (m ≫= f) vm = f a vm'.
Proof. unfold mbind, M_bind. by intros ->. Qed.

Lemma fetch_same vm w vm' : fetch vm = Ok (w, vm') → vm' = vm.
Proof.
  unfold fetch, mbind, M_bind, get_ip, mem_at, mret, M_ret.
  repeat (destruct (memory vm !! _); [|done]).
  congruence.
Qed.

Lemma cycle_dispatch vm w :
  fetch vm = Ok (w, vm) → cycle vm = dispatch w vm.
Proof. intros H. unfold cycle. by rewrite (bind_Ok _ _ _ _ _ H). Qed.

Lemma lookup_register vm i :
  sized vm → 0 ≤ i < 32 → is_Some (registers vm !! Z.to_nat i).
Proof. intros Hs Hi. apply lookup_lt_is_Some. unfold sized in Hs. lia. Qed.

Lemma reg_at_Ok vm i :
  sized vm → 0 ≤ i < 32 →
  ∃ v, registers vm !! Z.to_nat i = Some v ∧ reg_at i vm = Ok (v, vm).
Proof.
  intros Hs Hi. destruct (lookup_register vm i Hs Hi) as [v Hv].
  exists v. unfold reg_at. by rewrite Hv.
Qed.

Lemma reg_set_Ok vm i v :
  sized vm → 0 ≤ i < 32 →
  reg_set i v vm
  = Ok (tt, mkVM (<[Z.to_nat i := u32 v]> (registers vm)) (memory vm)
                 (ip vm) (hi vm) (lo vm)).
Proof.
  intros Hs Hi. destruct (lookup_register vm i Hs Hi) as [v' Hv].
  unfold reg_set. by rewrite Hv.
Qed.

(** The driver's [load] of an image that fits builds [boot]. *)
Lemma load_boot image entry :
  Z.of_nat (length image) ≤ 2 ^ 32 - 1 →
  load image (VirtualMachine_new entry) = Ok (tt, boot image entry).
Proof.
  intros Hlen. unfold load.
  by destruct (Z.ltb_spec (2 ^ 32 - 1) (Z.of_nat (length image))); [lia|].
Qed.

(** ** Rules for [triple] *)

Section Triples.
Context {A B : Type}.
Implicit Types (P : VirtualMachine → Prop) (m : M A).

Lemma triple_bind P m (f : A → M B) Q R :
  triple P m Q → (∀ a, triple (Q a) (f a) R) → triple P (m ≫= f) R.
Proof.
  intros Hm Hf vm HP. specialize (Hm vm HP).
  unfold mbind, M_bind.
  destruct (m vm) as [[a vm']|e| |]; try done.
  by apply Hf.
Qed.

Lemma triple_weaken P m (Q Q' : A → VirtualMachine → Prop) :
  triple P m Q → (∀ a vm, Q a vm → Q' a vm) → triple P m Q'.
Proof.
  intros Hm HQ vm HP. specialize (Hm vm HP).
  destruct (m vm) as [[a vm']|e| |]; auto.
Qed.

Lemma triple_ret P (a : A) : triple P (mret a) (λ _, P).
Proof. by intros vm HP. Qed.

Lemma triple_exit_1 P (Q : A → VirtualMachine → Prop) : triple P exit_1 Q.
Proof. by intros vm HP. Qed.

Lemma triple_undefined P (Q : A → VirtualMachine → Prop) :
  triple P undefined Q.
Proof. by intros vm HP. Qed.
End Triples.

(** Every access to a data member keeps the register array at its size
    and, [set_ip] apart, the instruction pointer where it is. *)
Section Primitives.
Variable p : Z.

Lemma get_ip_spec : triple (at_pc p) get_ip (λ a vm, a = p ∧ at_pc p vm).
Proof. by intros vm [Hs Hp]. Qed.

Lemma get_hi_spec : triple (at_pc p) get_hi (λ _, at_pc p).
Proof. by intros vm HP. Qed.

Lemma get_lo_spec : triple (at_pc p) get_lo (λ _, at_pc p).
Proof. by intros vm HP. Qed.

Lemma set_hi_spec v : triple (at_pc p) (set_hi v) (λ _, at_pc p).
Proof. by intros vm HP. Qed.

Lemma set_lo_spec v : triple (at_pc p) (set_lo v) (λ _, at_pc p).
Proof. by intros vm HP. Qed.

Lemma set_ip_spec v : triple (at_pc p) (set_ip v) (λ _, at_pc (u32 v)).
Proof. by intros vm [Hs Hp]. Qed.

Lemma reg_at_spec i :
  0 ≤ i < 32 → triple (at_pc p) (reg_at i) (λ _, at_pc p).
Proof.
  intros Hi vm [Hs Hp]. unfold reg_at.
  by destruct (lookup_register vm i Hs Hi) as [v ->].
Qed.

Lemma reg_set_spec i v :
  0 ≤ i < 32 → triple (at_pc p) (reg_set i v) (λ _, at_pc p).
Proof.
  intros Hi vm [Hs Hp]. unfold reg_set.
  destruct (lookup_register vm i Hs Hi) as [v' ->].
  split; [|done]. simpl. by rewrite length_insert.
Qed.

Lemma mem_at_spec i : triple (at_pc p) (mem_at i) (λ _, at_pc p).
Proof. intros vm HP. unfold mem_at. by destruct (memory vm !! _). Qed.

Lemma mem_set_spec i v : triple (at_pc p) (mem_set i v) (λ _, at_pc p).
Proof. intros vm HP. unfold mem_set. by destruct (memory vm !! _). Qed.

Lemma int_result_spec z : triple (at_pc p) (int_result z) (λ _, at_pc p).
Proof. intros vm HP. unfold int_result. by destruct (in_int z). Qed.

Lemma set_ip_sized v : triple (at_pc p) (set_ip v) (λ _, sized).
Proof. eapply triple_weaken; [apply set_ip_spec|]. by intros _ vm [? _]. Qed.

Lemma ret_sized {A} (a : A) : triple (at_pc p) (mret a) (λ _, sized).
Proof. eapply triple_weaken; [apply triple_ret|]. by intros _ vm [? _]. Qed.

Lemma triple_get_ip {B} (f : Z → M B) R :
  triple (at_pc p) (f p) R → triple (at_pc p) (get_ip ≫= f) R.
Proof.
  intros Hf. eapply triple_bind; [apply get_ip_spec|].
  intros a vm [-> HP]. by apply Hf.
Qed.

Lemma triple_seq {A B} (m : M A) (f : A → M B) R :
  triple (at_pc p) m (λ _, at_pc p) → (∀ a, triple (at_pc p) (f a) R) →
  triple (at_pc p) (m ≫= f) R.
Proof. intros Hm Hf. by eapply triple_bind. Qed.
End Primitives.

Create HintDb triple.

#[local] Hint Resolve extract_RS_bound extract_RT_bound extract_RD_bound
  : triple.
#[local] Hint Resolve get_hi_spec get_lo_spec set_hi_spec set_lo_spec
  reg_at_spec reg_set_spec mem_at_spec mem_set_spec int_result_spec : triple.
#[local] Hint Extern 1 (_ ≤ _ < _) => lia : triple.

#[local] Hint Unfold op_j op_jal op_lb op_lbu op_lh op_lhu op_lw op_lui op_sb
  op_sh op_sw op_addi op_addiu op_blez op_bgtz op_beq op_bne op_xori fn_sll
  fn_srl fn_sltu fn_slt fn_addu fn_add fn_multu fn_mult fn_divu fn_div fn_jr
  fn_jalr fn_and fn_or fn_nor fn_xor fn_mtlo fn_mthi fn_mfhi fn_mflo
  fn_syscall advance branch : triple.

Lemma int_address_spec p w :
  triple (at_pc p) (int_address w) (λ _, at_pc p).
Proof. apply triple_seq; [|intros rs]; auto with triple. Qed.

Lemma unsigned_address_spec p w :
  triple (at_pc p) (unsigned_address w) (λ _, at_pc p).
Proof. apply triple_seq; [|intros rs; apply triple_ret]; auto with triple. Qed.

#[local] Hint Resolve int_address_spec unsigned_address_spec : triple.

(** Walks through the statements of one case of the switch, up to its
    last assignment to [ip]. *)
Ltac triple_run :=
  autounfold with triple;
  repeat first
    [ progress cbv zeta
    | apply triple_get_ip
    | apply triple_seq; [solve [auto with triple]|intros ?]
    | match goal with
      | |- triple _ (if ?c then _ else _) _ => destruct c
      end ].

(** One goal per arm of a [switch] on the field [x]. *)
Ltac by_cases_on x :=
  generalize x; intros [|q|q]; simpl;
  repeat match goal with
         | |- context [match ?q with xH => _ | _ => _ end] =>
             destruct q; simpl
         end.

Lemma fetch_spec p : triple (at_pc p) fetch (λ _, at_pc p).
Proof. unfold fetch. triple_run. apply triple_ret. Qed.

(** Whatever the instruction, the dispatcher never leaves the bounds of
    the register array. *)
Lemma dispatch_sized p w : triple (at_pc p) (dispatch w) (λ _, sized).
Proof.
  unfold dispatch.
  by_cases_on (extract w OP); try apply triple_exit_1;
    try (triple_run;
         first [apply set_ip_sized | apply ret_sized | apply triple_undefined]).
  unfold r_type.
  by_cases_on (extract w FN); try apply triple_exit_1;
    (triple_run;
     first [apply set_ip_sized | apply ret_sized | apply triple_undefined]).
Qed.

Lemma cycle_sized p : triple (at_pc p) cycle (λ _, sized).
Proof.
  unfold cycle. apply triple_seq; [apply fetch_spec|intros w].
  apply dispatch_sized.
Qed.

(** Every instruction of [plain_instruction] leaves [ip] four bytes on. *)
Lemma dispatch_advances p w :
  plain_instruction w = true →
  triple (at_pc p) (dispatch w) (λ _, at_pc (u32 (p + 4))).
Proof.
  unfold plain_instruction, dispatch.
  by_cases_on (extract w OP); try (intros _; apply triple_exit_1);
    try discriminate;
    try (intros _; triple_run;
         first [apply set_ip_spec | apply triple_undefined]).
  unfold r_type.
  by_cases_on (extract w FN); try (intros _; apply triple_exit_1);
    try discriminate;
    (intros _; triple_run;
     first [apply set_ip_spec | apply triple_undefined]).
Qed.

Lemma cycle_advances vm w vm' :
  sized vm → fetch vm = Ok (w, vm) → plain_instruction w = true →
  cycle vm = Ok (tt, vm') → ip vm' = u32 (ip vm + 4).
Proof.
  intros Hs Hf Hw Hc. rewrite (cycle_dispatch _ _ Hf) in Hc.
  pose proof (dispatch_advances (ip vm) w Hw vm (conj Hs eq_refl)) as H.
  rewrite Hc in H. by destruct H.
Qed.

(** A branch leaves [ip] four bytes on or at the branch target. *)
Lemma dispatch_branches p w :
  extract w OP = 0x04 ∨ extract w OP = 0x05 ∨
  extract w OP = 0x06 ∨ extract w OP = 0x07 →
  triple (at_pc p) (dispatch w)
    (λ _ vm, at_pc (u32 (p + 4)) vm
             ∨ at_pc (Spec.branch_target p (extract w IMMD)) vm).
Proof.
  unfold dispatch, Spec.branch_target.
  intros [-> | [-> | [-> | ->]]]; cbv iota; triple_run;
    (eapply triple_weaken; [apply set_ip_spec|]); intros ? vm Hvm;
    first [by left | right; by rewrite <- Z.add_assoc].
Qed.

(** ** Multiplication *)

(** The product of multu is already reduced to 32 bits when it is widened:
    whatever the operands, [hi] becomes zero. *)
Lemma multu_hi_zero vm w vm' :
  sized vm → fetch vm = Ok (w, vm) →
  extract w OP = 0 → extract w FN = 0x19 →
  cycle vm = Ok (tt, vm') → hi vm' = 0.
Proof.
  intros Hs Hf Hop Hfn. rewrite (cycle_dispatch _ _ Hf). unfold dispatch.
  rewrite Hop. cbv iota. unfold r_type. rewrite Hfn. cbv iota.
  unfold fn_multu.
  destruct (reg_at_Ok vm (extract w RS) Hs (extract_RS_bound w))
    as (rs & _ & Hrs).
  destruct (reg_at_Ok vm (extract w RT) Hs (extract_RT_bound w))
    as (rt & _ & Hrt).
  rewrite (bind_Ok _ _ _ _ _ Hrs), (bind_Ok _ _ _ _ _ Hrt). cbv zeta.
  assert (Hz : Z.shiftr (Z.land (u64 (u32 (rs * rt))) 0xFFFFFFFF00000000) 32
               = 0).
  { assert (0 ≤ u32 (rs * rt) < 2 ^ 32) as Hb by (by apply Z.mod_pos_bound).
    unfold u64. rewrite (Z.mod_small _ (2 ^ 64)) by lia.
    rewrite Z.shiftr_land, Z.shiftr_div_pow2, Z.div_small by lia.
    apply Z.land_0_l. }
  rewrite Hz. intros [= <-]. reflexivity.
Qed.

(** When the product of mult fits an [int], both halves are those of the
    exact 64-bit signed product. *)
Lemma mult_exact_when_defined vm w rs rt vm' :
  fetch vm = Ok (w, vm) → extract w OP = 0 → extract w FN = 0x18 →
  registers vm !! Z.to_nat (extract w RS) = Some rs →
  registers vm !! Z.to_nat (extract w RT) = Some rt →
  cycle vm = Ok (tt, vm') →
  hi vm' = Spec.product_hi (s32 rs * s32 rt) ∧
  lo vm' = Spec.product_lo (s32 rs * s32 rt).
Proof.
  intros Hf Hop Hfn Hrs Hrt. rewrite (cycle_dispatch _ _ Hf).
  unfold dispatch. rewrite Hop. cbv iota. unfold r_type. rewrite Hfn.
  cbv iota. unfold fn_mult.
  erewrite bind_Ok by (unfold reg_at; by rewrite Hrs).
  erewrite bind_Ok by (unfold reg_at; by rewrite Hrt).
  unfold int_result. destruct (in_int _) eqn:Hin; [|done].
  erewrite bind_Ok by reflexivity.
  intros [= <-]. cbn [hi lo registers memory ip].
  set (p := s32 rs * s32 rt). unfold Spec.product_hi, Spec.product_lo.
  split.
  - assert (Hp : 0 ≤ u64 p < 2 ^ 64) by (by apply Z.mod_pos_bound).
    rewrite Z.shiftr_land.
    change (Z.shiftr 0xFFFFFFFF00000000 32) with (Z.ones 32).
    rewrite Z.land_ones by done. unfold u32. rewrite Z.mod_mod by done.
    apply Z.mod_small. rewrite Z.shiftr_div_pow2 by done.
    split; [apply Z.div_pos; lia|apply Z.div_lt_upper_bound; lia].
  - change 0x00000000FFFFFFFF with (Z.ones 32).
    rewrite Z.land_ones by done. unfold u32. by rewrite Z.mod_mod.
Qed.

(** mult of -1 and 5: the product fits an [int] and both halves are those
    of the 64-bit product. *)
Example mult_small_exact :
  hi <$> final (cycle mult_small_state) = Some (Spec.product_hi (-1 * 5)) ∧
  lo <$> final (cycle mult_small_state) = Some (Spec.product_lo (-1 * 5)).
Proof. vm_compute. by split. Qed.

(** mult of 0x10000 and 0x10000: the product on [int] overflows. *)
Example mult_overflow_undefined :
  cycle mult_state = Undefined ∧
  Spec.product_hi (0x10000 * 0x10000) = 1 ∧
  Spec.product_lo (0x10000 * 0x10000) = 0.
Proof. vm_compute. by repeat split. Qed.

(** C1 (the code departs from the claim).  multu with
    R[rs] = R[rt] = 0xFFFFFFFF leaves HI = 0 and LO = 1, whereas the upper
    and lower halves of the exact 64-bit unsigned product are 0xFFFFFFFE
    and 1. *)
Theorem multu_drops_upper_half :
  fetch multu_state = Ok (0x00220019, multu_state) ∧
  (extract 0x00220019 OP = 0 ∧ extract 0x00220019 FN = 0x19 ∧
   extract 0x00220019 RS = 1 ∧ extract 0x00220019 RT = 2) ∧
  (R multu_state 1 = Some 0xFFFFFFFF ∧ R multu_state 2 = Some 0xFFFFFFFF) ∧
  (hi <$> final (cycle multu_state) = Some 0 ∧
   lo <$> final (cycle multu_state) = Some 1) ∧
  (Spec.product_hi (0xFFFFFFFF * 0xFFFFFFFF) = 0xFFFFFFFE ∧
   Spec.product_lo (0xFFFFFFFF * 0xFFFFFFFF) = 1).
Proof. vm_compute. by repeat split. Qed.

(** ** The program counter *)

(** The case of addi is empty: the machine is left as it was. *)
Lemma addi_no_effect vm w :
  fetch vm = Ok (w, vm) → extract w OP = 0x08 → cycle vm = Ok (tt, vm).
Proof.
  intros Hf Hop. rewrite (cycle_dispatch _ _ Hf). unfold dispatch.
  by rewrite Hop.
Qed.

(** C2 (the code departs from the claim).  addi (op = 0x08) fetched at
    PC 0 completes its cycle with the machine unchanged: PC is still 0,
    not 4. *)
Theorem addi_leaves_pc :
  fetch addi_state = Ok (0x20080005, addi_state) ∧
  extract 0x20080005 OP = 0x08 ∧
  final (cycle addi_state) = Some addi_state ∧
  ip addi_state = 0 ∧ u32 (ip addi_state + 4) = 4.
Proof. vm_compute. by repeat split. Qed.

(** ** lui *)

Lemma lui_value_zero w : u16 (u32 (Z.shiftl (extract w IMMD) 16)) = 0.
Proof.
  pose proof (extract_IMMD_bound w) as Hi.
  rewrite Z.shiftl_mul_pow2 by done.
  rewrite u32_small by lia. unfold u16. apply Z_mod_mult.
Qed.

(** Whatever the immediate, lui stores zero, in the register of the RD
    field. *)
Lemma lui_clears_rd vm w :
  sized vm → fetch vm = Ok (w, vm) → extract w OP = 0x0F →
  cycle vm = Ok (tt, mkVM (<[Z.to_nat (extract w RD) := 0]> (registers vm))
                       (memory vm) (u32 (ip vm + 4)) (hi vm) (lo vm)).
Proof.
  intros Hs Hf Hop. rewrite (cycle_dispatch _ _ Hf). unfold dispatch.
  rewrite Hop. cbv iota. unfold op_lui. cbv zeta.
  rewrite lui_value_zero.
  erewrite bind_Ok by (apply reg_set_Ok; auto using extract_RD_bound).
  reflexivity.
Qed.

(** C3 (the code departs from the claim).  lui with rt = 1 and
    imm16 = 0x1234 leaves register 1 at 0 instead of 0x12340000, and
    overwrites register 2 (bits 15:11 of the word) with 0. *)
Theorem lui_writes_zero_to_rd :
  fetch lui_state = Ok (0x3C011234, lui_state) ∧
  (extract 0x3C011234 OP = 0x0F ∧ extract 0x3C011234 RT = 1 ∧
   extract 0x3C011234 RD = 2 ∧ extract 0x3C011234 IMMD = 0x1234) ∧
  (R lui_state 1 = Some 0 ∧ R lui_state 2 = Some 7) ∧
  (final (cycle lui_state) ≫= λ vm, R vm 1) = Some 0 ∧
  (final (cycle lui_state) ≫= λ vm, R vm 2) = Some 0 ∧
  ip <$> final (cycle lui_state) = Some 4 ∧
  Z.shiftl 0x1234 16 = 0x12340000.
Proof. vm_compute. by repeat split. Qed.

(** ** Loads and stores *)

Lemma u32_s32 z k : u32 (s32 z + k) = u32 (z + k).
Proof.
  unfold s32. destruct (u32 z <? 2 ^ 31); unfold u32.
  - by rewrite Zplus_mod_idemp_l.
  - replace (z mod 2 ^ 32 - 2 ^ 32 + k)
      with (z mod 2 ^ 32 + k + (-1) * 2 ^ 32) by lia.
    by rewrite Z_mod_plus_full, Zplus_mod_idemp_l.
Qed.

Lemma in_int_spec z : in_int z = true ↔ - 2 ^ 31 ≤ z < 2 ^ 31.
Proof. unfold in_int. by rewrite andb_true_iff, Z.leb_le, Z.ltb_lt. Qed.

(** lb, lh, lw, sb, sh and sw: an address that is not negative is the one
    the specification asks for.  (A negative one becomes an index beyond
    any memory when it is converted to [size_t].) *)
Lemma int_address_sign_extends vm w rs a vm' :
  registers vm !! Z.to_nat (extract w RS) = Some rs →
  int_address w vm = Ok (a, vm') → 0 ≤ a →
  u64 a = Spec.effective_address rs (extract w IMMD).
Proof.
  intros Hrs. unfold int_address.
  erewrite bind_Ok by (unfold reg_at; by rewrite Hrs).
  unfold int_result. destruct (in_int _) eqn:Hin; [|done].
  apply in_int_spec in Hin. intros [= <- <-] Ha.
  unfold Spec.effective_address. rewrite <- u32_s32.
  unfold u64, u32. rewrite !Z.mod_small; lia.
Qed.

(** An offset with its sign bit set: the address of lbu and lhu is not the
    one the specification asks for. *)
Lemma unsigned_address_differs rs imm16 :
  2 ^ 15 ≤ imm16 < 2 ^ 16 →
  u32 (rs + imm16) ≠ Spec.effective_address rs imm16.
Proof.
  intros Hi. unfold Spec.effective_address, s16, u16, u32.
  rewrite (Z.mod_small imm16) by lia.
  destruct (Z.ltb_spec imm16 (2 ^ 15)); [lia|].
  intros Heq.
  assert (H16 : (rs + imm16 - (rs + (imm16 - 2 ^ 16))) mod 2 ^ 32 = 0).
  { by rewrite Zminus_mod, Heq, Z.sub_diag. }
  by replace (rs + imm16 - (rs + (imm16 - 2 ^ 16))) with (2 ^ 16) in H16
    by lia.
Qed.

(** C4 (the code departs from the claim).  lbu and lhu with R[rs] = 1 and
    imm16 = 0xFFFF (-1) address byte 0x10000, not byte 0, whereas the
    address of lb for the same operands is 0: in a memory of four bytes
    lbu throws, and in one that reaches address 0x10000 it loads the byte
    found there. *)
Theorem lbu_lhu_zero_extend_offset :
  (fetch lbu_state = Ok (0x9022FFFF, lbu_state) ∧
   fetch lhu_negative_state = Ok (0x9422FFFF, lhu_negative_state)) ∧
  (extract 0x9022FFFF OP = 0x24 ∧ extract 0x9422FFFF OP = 0x25 ∧
   extract 0x9022FFFF RS = 1 ∧ extract 0x9022FFFF RT = 2 ∧
   extract 0x9022FFFF IMMD = 0xFFFF ∧ R lbu_state 1 = Some 1) ∧
  Spec.effective_address 1 0xFFFF = 0 ∧
  (value (unsigned_address 0x9022FFFF lbu_state) = Some 0x10000 ∧
   value (unsigned_address 0x9422FFFF lhu_negative_state) = Some 0x10000 ∧
   value (int_address 0x9022FFFF lbu_state) = Some 0) ∧
  (cycle lbu_state = Thrown MemoryOutOfRange ∧
   cycle lhu_negative_state = Thrown MemoryOutOfRange) ∧
  (memory lbu_far_state !! 0%nat = Some 0x90 ∧
   memory lbu_far_state !! Z.to_nat 0x10000 = Some 0xAB ∧
   (final (cycle lbu_far_state) ≫= λ vm, R vm 2) = Some 0xAB).
Proof. vm_compute. by repeat split. Qed.

(** The value of lhu is cut to eight bits: the byte at the lower address
    is lost. *)
Lemma lhu_value_low_byte b0 b1 :
  0 ≤ b1 < 2 ^ 8 → u8 (Z.lor (Z.shiftl b0 8) b1) = b1.
Proof.
  intros Hb. unfold u8. rewrite <- Z.land_ones by done.
  rewrite Z.land_lor_distr_l, !Z.land_ones by done.
  rewrite Z.shiftl_mul_pow2, Z_mod_mult, Z.lor_0_l by done.
  by apply Z.mod_small.
Qed.

(** C5 (the code departs from the claim).  lhu of the halfword 0x12 0x34
    at the in-bounds address 4 sets R[rt] to 0x34, not to 0x1234. *)
Theorem lhu_keeps_low_byte :
  fetch lhu_state = Ok (0x94010004, lhu_state) ∧
  (extract 0x94010004 OP = 0x25 ∧ extract 0x94010004 RT = 1 ∧
   value (unsigned_address 0x94010004 lhu_state) = Some 4 ∧
   Spec.effective_address 0 4 = 4) ∧
  Spec.read_half (memory lhu_state) 4 = Some 0x1234 ∧
  (final (cycle lhu_state) ≫= λ vm, R vm 1) = Some 0x34.
Proof. vm_compute. by repeat split. Qed.

(** ** Branches *)

(** bgtz compares on [unsigned]: the branch is taken exactly when the
    register is not zero. *)
Lemma bgtz_taken_iff_nonzero vm w r :
  sized vm → fetch vm = Ok (w, vm) → extract w OP = 0x07 →
  registers vm !! Z.to_nat (extract w RS) = Some r → 0 ≤ r →
  cycle vm = Ok (tt, mkVM (registers vm) (memory vm)
                       (if r =? 0 then u32 (ip vm + 4)
                        else Spec.branch_target (ip vm) (extract w IMMD))
                       (hi vm) (lo vm)).
Proof.
  intros Hs Hf Hop Hr Hr0. rewrite (cycle_dispatch _ _ Hf). unfold dispatch.
  rewrite Hop. cbv iota. unfold op_bgtz.
  erewrite bind_Ok by (unfold reg_at; by rewrite Hr).
  destruct (Z.eqb_spec r 0) as [->|Hne].
  - reflexivity.
  - destruct (Z.ltb_spec 0 r); [|lia].
    unfold branch, Spec.branch_target.
    erewrite bind_Ok by reflexivity. unfold set_ip.
    by rewrite Z.add_assoc.
Qed.

(** C6 (the code departs from the claim).  bgtz with R[rs] = 0x80000000,
    a negative value, and imm16 = 3 at PC 0 takes the branch: the new PC
    is 16, not 4. *)
Theorem bgtz_compares_unsigned :
  fetch bgtz_state = Ok (0x1C200003, bgtz_state) ∧
  (extract 0x1C200003 OP = 0x07 ∧ extract 0x1C200003 RS = 1 ∧
   extract 0x1C200003 IMMD = 3 ∧
   R bgtz_state 1 = Some 0x80000000 ∧ s32 0x80000000 = - 2 ^ 31) ∧
  ip <$> final (cycle bgtz_state) = Some (Spec.branch_target 0 3) ∧
  Spec.branch_target 0 3 = 16.
Proof. vm_compute. by repeat split. Qed.

(** ** Register 0 *)

(** A write to register 0 is stored like any other. *)
Lemma reg_set_zero_not_discarded vm v :
  sized vm → (final (reg_set 0 v vm) ≫= λ vm', R vm' 0) = Some (u32 v).
Proof.
  intros Hs. rewrite reg_set_Ok by (done || lia). simpl. unfold R. simpl.
  apply list_lookup_insert_eq. unfold sized in Hs. lia.
Qed.

(** C7 (the code departs from the claim).  Started with R[0] = 0,
    addiu with rt = 0 and imm16 = 5 leaves R[0] = 5. *)
Theorem addiu_overwrites_register_zero :
  fetch addiu_zero_state = Ok (0x24000005, addiu_zero_state) ∧
  (extract 0x24000005 OP = 0x09 ∧ extract 0x24000005 RS = 0 ∧
   extract 0x24000005 RT = 0 ∧ extract 0x24000005 IMMD = 5) ∧
  R addiu_zero_state 0 = Some 0 ∧
  (final (cycle addiu_zero_state) ≫= λ vm, R vm 0) = Some 5.
Proof. vm_compute. by repeat split. Qed.

(** ** Division *)

(** Neither div nor divu looks at the divisor before dividing: with a
    zero divisor the cycle runs into undefined behaviour. *)
Lemma division_by_zero vm w :
  sized vm → fetch vm = Ok (w, vm) → extract w OP = 0 →
  extract w FN = 0x1A ∨ extract w FN = 0x1B →
  registers vm !! Z.to_nat (extract w RT) = Some 0 →
  cycle vm = Undefined.
Proof.
  intros Hs Hf Hop Hfn Hrt. rewrite (cycle_dispatch _ _ Hf). unfold dispatch.
  rewrite Hop. cbv iota. unfold r_type.
  destruct (reg_at_Ok vm (extract w RS) Hs (extract_RS_bound w))
    as (rs & _ & Hrs).
  assert (Hat : reg_at (extract w RT) vm = Ok (0, vm))
    by (unfold reg_at; by rewrite Hrt).
  destruct Hfn as [-> | ->]; cbv iota.
  - unfold fn_div.
    by rewrite (bind_Ok _ _ _ _ _ Hrs), (bind_Ok _ _ _ _ _ Hat).
  - unfold fn_divu.
    by rewrite (bind_Ok _ _ _ _ _ Hrs), (bind_Ok _ _ _ _ _ Hat).
Qed.

(** With a divisor other than zero divu completes, with remainder and
    quotient in [hi] and [lo] and [ip] four bytes on. *)
Lemma divu_nonzero vm w rs rt :
  fetch vm = Ok (w, vm) → extract w OP = 0 → extract w FN = 0x1B →
  registers vm !! Z.to_nat (extract w RS) = Some rs →
  registers vm !! Z.to_nat (extract w RT) = Some rt → rt ≠ 0 →
  cycle vm = Ok (tt, mkVM (registers vm) (memory vm) (u32 (ip vm + 4))
                       (u32 (rs mod rt)) (u32 (rs / rt))).
Proof.
  intros Hf Hop Hfn Hrs Hrt Hne. rewrite (cycle_dispatch _ _ Hf).
  unfold dispatch. rewrite Hop. cbv iota. unfold r_type. rewrite Hfn.
  cbv iota. unfold fn_divu.
  erewrite bind_Ok by (unfold reg_at; by rewrite Hrs).
  erewrite bind_Ok by (unfold reg_at; by rewrite Hrt).
  by destruct (Z.eqb_spec rt 0).
Qed.

(** divu of 7 by 2. *)
Example divu_seven_by_two :
  hi <$> final (cycle divu_two_state) = Some 1 ∧
  lo <$> final (cycle divu_two_state) = Some 3 ∧
  ip <$> final (cycle divu_two_state) = Some 4.
Proof. vm_compute. by repeat split. Qed.

(** C8 (the code departs from the claim).  div and divu with R[rt] = 0 do
    not complete the cycle: the division is carried out on the zero
    divisor, which is undefined behaviour, and no new PC is produced. *)
Theorem division_by_zero_undefined :
  (fetch div_state = Ok (0x0022001A, div_state) ∧
   fetch divu_state = Ok (0x0022001B, divu_state)) ∧
  (extract 0x0022001A OP = 0 ∧ extract 0x0022001A FN = 0x1A ∧
   extract 0x0022001B OP = 0 ∧ extract 0x0022001B FN = 0x1B ∧
   extract 0x0022001A RT = 2 ∧ extract 0x0022001B RT = 2) ∧
  (R div_state 2 = Some 0 ∧ R divu_state 2 = Some 0) ∧
  (cycle div_state = Undefined ∧ cycle divu_state = Undefined) ∧
  (final (cycle div_state) = None ∧ final (cycle divu_state) = None).
Proof. vm_compute. by repeat split. Qed.

(** ** Jumps *)

(** C9.  For every machine whose fetch at PC p yields the word w: when
    the opcode of w is 0x02 (j), the cycle sets PC to
    (p & 0xF0000000) | (target26 << 2) and changes nothing else; when it
    is 0x03 (jal), the cycle sets R[31] to p + 4 (on 32 bits) and PC to
    the same target, p being the PC of the jump itself. *)
Theorem j_jal_set_pc (vm : VirtualMachine) (w : Z) :
  fetch vm = Ok (w, vm) →
  (extract w OP = 0x02 →
   cycle vm = Ok (tt, mkVM (registers vm) (memory vm)
                        (Spec.jump_target (ip vm) (Spec.target26 w))
                        (hi vm) (lo vm))) ∧
  (extract w OP = 0x03 → length (registers vm) = 32%nat →
   cycle vm = Ok (tt, mkVM (<[31%nat := u32 (ip vm + 4)]> (registers vm))
                        (memory vm)
                        (Spec.jump_target (ip vm) (Spec.target26 w))
                        (hi vm) (lo vm))).
Proof.
  intros Hf. rewrite (cycle_dispatch _ _ Hf). unfold dispatch.
  split; intros ->; cbv iota.
  - unfold op_j. erewrite bind_Ok by reflexivity.
    unfold set_ip. by rewrite jump_target_u32.
  - intros Hs. unfold op_jal. erewrite bind_Ok by reflexivity.
    erewrite bind_Ok by (by apply reg_set_Ok).
    erewrite bind_Ok by reflexivity.
    unfold set_ip. cbn [registers memory ip hi lo].
    by rewrite jump_target_u32.
Qed.

Lemma j_jal_set_pc_witness :
  (fetch j_state = Ok (0x08000004, j_state) ∧
   extract 0x08000004 OP = 0x02 ∧
   ip <$> final (cycle j_state) = Some 0x10) ∧
  (fetch jal_state = Ok (0x0C000004, jal_state) ∧
   extract 0x0C000004 OP = 0x03 ∧
   length (registers jal_state) = 32%nat ∧
   (final (cycle jal_state) ≫= λ vm, R vm 31) = Some 4 ∧
   ip <$> final (cycle jal_state) = Some 0x10).
Proof.
  assert (Hj : fetch j_state = Ok (0x08000004, j_state)) by reflexivity.
  assert (Hl : fetch jal_state = Ok (0x0C000004, jal_state)) by reflexivity.
  destruct (j_jal_set_pc j_state _ Hj) as [H2 _].
  destruct (j_jal_set_pc jal_state _ Hl) as [_ H3].
  rewrite (H2 eq_refl), (H3 eq_refl eq_refl).
  repeat split; reflexivity.
Defined.

(** ** Register indices *)

(** C10.  For every instruction word the RS, RT and RD fields are below
    32, and a cycle of a machine whose register array has its 32 entries
    never ends by an out-of-range access to that array, whatever the
    instruction fetched. *)
Theorem register_fields_in_bounds (w : Z) :
  (0 ≤ extract w RS < 32 ∧ 0 ≤ extract w RT < 32 ∧ 0 ≤ extract w RD < 32) ∧
  ∀ vm, length (registers vm) = 32%nat →
        cycle vm ≠ Thrown RegistersOutOfRange.
Proof.
  split; [auto using extract_RS_bound, extract_RT_bound, extract_RD_bound|].
  intros vm Hs Hc.
  pose proof (cycle_sized (ip vm) vm (conj Hs eq_refl)) as H.
  by rewrite Hc in H.
Qed.

Lemma register_fields_in_bounds_witness :
  length (registers addiu_state) = 32%nat ∧
  cycle addiu_state ≠ Thrown RegistersOutOfRange.
Proof.
  split; [reflexivity|].
  exact (proj2 (register_fields_in_bounds 0x24080005) addiu_state eq_refl).
Defined.

Lemma field_div_mod (w mask n k : Z) :
  0 ≤ n → 0 ≤ k → Z.shiftr mask n = Z.ones k →
  Z.shiftr (Z.land w mask) n = (w / 2 ^ n) mod 2 ^ k.
Proof.
  intros Hn Hk Hm.
  by rewrite Z.shiftr_land, Hm, Z.land_ones, Z.shiftr_div_pow2.
Qed.

Lemma lor_shiftl_add a b n :
  0 ≤ n → 0 ≤ b < 2 ^ n → Z.lor (Z.shiftl a n) b = a * 2 ^ n + b.
Proof.
  intros Hn Hb. rewrite <- Z.shiftl_mul_pow2 by done.
  symmetry. apply Z.add_nocarry_lor.
  apply Z.bits_inj'. intros m Hm.
  rewrite Z.land_spec, Z.bits_0.
  destruct (Z.lt_ge_cases m n) as [Hlt|Hge].
  - by rewrite Z.shiftl_spec_low.
  - rewrite <- (Z.mod_small b (2 ^ n)) by done.
    rewrite Z.mod_pow2_bits_high by lia. apply andb_false_r.
Qed.

(** X1.  The decoder loses nothing: a 32-bit word is the sum of its R-type
    fields, each at its position, and likewise of its I-type fields; four
    times the word is the opcode at bit 28 plus the ADDR field (which
    [extract] returns already shifted left by two). *)
Theorem extract_fields_reassemble (w : Z) :
  0 ≤ w < 2 ^ 32 →
  w = extract w OP * 2 ^ 26 + extract w RS * 2 ^ 21 + extract w RT * 2 ^ 16
      + extract w RD * 2 ^ 11 + extract w SHMT * 2 ^ 6 + extract w FN ∧
  w = extract w OP * 2 ^ 26 + extract w RS * 2 ^ 21 + extract w RT * 2 ^ 16
      + extract w IMMD ∧
  4 * w = extract w OP * 2 ^ 28 + extract w ADDR.
Proof.
  intros Hw. unfold extract.
  rewrite (field_div_mod w _ 26 6), (field_div_mod w _ 21 5),
    (field_div_mod w _ 16 5), (field_div_mod w _ 11 5),
    (field_div_mod w _ 6 5) by done.
  change 0x0000003F with (Z.ones 6). change 0x0000FFFF with (Z.ones 16).
  change 0x03FFFFFF with (Z.ones 26).
  rewrite !Z.land_ones, Z.shiftl_mul_pow2 by done.
  unfold u32.
  Z.to_euclidean_division_equations. lia.
Qed.

(** X2.  Whatever the word, OP and FN are below 64, SHMT below 32, IMMD
    below 2^16, and ADDR is a multiple of 4 below 2^28. *)
Theorem extract_field_widths (w : Z) :
  0 ≤ extract w OP < 64 ∧ 0 ≤ extract w SHMT < 32 ∧ 0 ≤ extract w FN < 64 ∧
  0 ≤ extract w IMMD < 2 ^ 16 ∧
  (0 ≤ extract w ADDR < 2 ^ 28 ∧ extract w ADDR mod 4 = 0).
Proof.
  repeat split; try apply extract_IMMD_bound.
  1-2: by apply (field_bound w _ 26 6).
  1-2: by apply (field_bound w _ 6 5).
  1-2: unfold extract; change 0x0000003F with (Z.ones 6);
    rewrite Z.land_ones by done; by apply Z.mod_pos_bound.
  all: rewrite extract_ADDR_shift; unfold Spec.target26;
    change 0x03FFFFFF with (Z.ones 26);
    rewrite Z.land_ones, Z.shiftl_mul_pow2 by done;
    Z.to_euclidean_division_equations; lia.
Qed.

Lemma mem_at_Ok vm i b :
  memory vm !! Z.to_nat i = Some b → mem_at i vm = Ok (b, vm).
Proof. unfold mem_at. by intros ->. Qed.

Lemma mem_at_out vm i :
  0 ≤ i → Z.of_nat (length (memory vm)) ≤ i →
  mem_at i vm = Thrown MemoryOutOfRange.
Proof.
  intros Hi Hlen. unfold mem_at.
  rewrite (lookup_ge_None_2 (memory vm) (Z.to_nat i)); [done|lia].
Qed.

Lemma lor_mul_add a b n :
  0 ≤ n → 0 ≤ b < 2 ^ n → Z.lor (a * 2 ^ n) b = a * 2 ^ n + b.
Proof. intros. rewrite <- lor_shiftl_add by done. by rewrite Z.shiftl_mul_pow2. Qed.

Lemma big_endian_word b0 b1 b2 b3 :
  0 ≤ b0 < 2 ^ 8 → 0 ≤ b1 < 2 ^ 8 → 0 ≤ b2 < 2 ^ 8 → 0 ≤ b3 < 2 ^ 8 →
  Z.lor (Z.lor (Z.lor (Z.shiftl b0 24) (Z.shiftl b1 16)) (Z.shiftl b2 8)) b3
  = b0 * 2 ^ 24 + b1 * 2 ^ 16 + b2 * 2 ^ 8 + b3.
Proof.
  intros Hb0 Hb1 Hb2 Hb3. rewrite !Z.shiftl_mul_pow2 by done.
  rewrite (lor_mul_add b0 _ 24) by lia.
  replace (b0 * 2 ^ 24 + b1 * 2 ^ 16) with ((b0 * 2 ^ 8 + b1) * 2 ^ 16) by lia.
  rewrite (lor_mul_add _ _ 16) by lia.
  replace ((b0 * 2 ^ 8 + b1) * 2 ^ 16 + b2 * 2 ^ 8)
    with ((b0 * 2 ^ 16 + b1 * 2 ^ 8 + b2) * 2 ^ 8) by lia.
  rewrite (lor_mul_add _ _ 8) by lia. lia.
Qed.

(** X3.  When the four bytes at [ip] exist, [fetch] returns them as one
    big-endian word (the byte at the lowest address is the most
    significant) and leaves the machine as it was. *)
Theorem fetch_big_endian vm b0 b1 b2 b3 :
  0 ≤ ip vm → ip vm + 3 < 2 ^ 32 →
  memory vm !! Z.to_nat (ip vm) = Some b0 →
  memory vm !! Z.to_nat (ip vm + 1) = Some b1 →
  memory vm !! Z.to_nat (ip vm + 2) = Some b2 →
  memory vm !! Z.to_nat (ip vm + 3) = Some b3 →
  0 ≤ b0 < 2 ^ 8 → 0 ≤ b1 < 2 ^ 8 → 0 ≤ b2 < 2 ^ 8 → 0 ≤ b3 < 2 ^ 8 →
  fetch vm = Ok (b0 * 2 ^ 24 + b1 * 2 ^ 16 + b2 * 2 ^ 8 + b3, vm).
Proof.
  intros Hip Hip3 H0 H1 H2 H3 Hb0 Hb1 Hb2 Hb3. unfold fetch.
  erewrite bind_Ok by reflexivity.
  rewrite !u32_small by lia.
  erewrite bind_Ok by (by apply mem_at_Ok).
  erewrite bind_Ok by (by apply mem_at_Ok).
  erewrite bind_Ok by (by apply mem_at_Ok).
  erewrite bind_Ok by (by apply mem_at_Ok).
  unfold mret, M_ret. do 2 f_equal.
  rewrite big_endian_word by done.
  apply u32_small. lia.
Qed.

Lemma bind_fail {A B} (m : M A) (f : A → M B) vm :
  final (m vm) = None → (m ≫= f) vm = match m vm with
                                       | Ok _ => Undefined
                                       | Thrown e => Thrown e
                                       | Exited => Exited
                                       | Undefined => Undefined
                                       end.
Proof. unfold mbind, M_bind. by destruct (m vm) as [[??]| | |]. Qed.

(** X4.  [fetch] throws out of range, and with it the whole cycle, as soon
    as [ip + 3] is not below the size of the memory; otherwise it returns
    a 32-bit word and leaves the machine as it was. *)
Theorem fetch_bounds vm :
  0 ≤ ip vm → ip vm + 3 < 2 ^ 32 →
  (Z.of_nat (length (memory vm)) ≤ ip vm + 3 →
   fetch vm = Thrown MemoryOutOfRange ∧ cycle vm = Thrown MemoryOutOfRange) ∧
  (ip vm + 3 < Z.of_nat (length (memory vm)) →
   ∃ w, fetch vm = Ok (w, vm) ∧ 0 ≤ w < 2 ^ 32).
Proof.
  intros Hip Hip3. split.
  - intros Hlen.
    assert (Hf : fetch vm = Thrown MemoryOutOfRange).
    { unfold fetch. erewrite bind_Ok by reflexivity.
      rewrite !u32_small by lia.
      unfold mbind, M_bind, mem_at.
      destruct (memory vm !! Z.to_nat (ip vm)); [|done].
      destruct (memory vm !! Z.to_nat (ip vm + 1)); [|done].
      destruct (memory vm !! Z.to_nat (ip vm + 2)); [|done].
      destruct (memory vm !! Z.to_nat (ip vm + 3)) eqn:H3; [|done].
      apply lookup_lt_Some in H3. lia. }
    split; [done|]. unfold cycle, mbind, M_bind. by rewrite Hf.
  - intros Hlen. unfold fetch. erewrite bind_Ok by reflexivity.
    rewrite !u32_small by lia.
    destruct (lookup_lt_is_Some_2 (memory vm) (Z.to_nat (ip vm))) as [b0 H0];
      [lia|].
    destruct (lookup_lt_is_Some_2 (memory vm) (Z.to_nat (ip vm + 1)))
      as [b1 H1]; [lia|].
    destruct (lookup_lt_is_Some_2 (memory vm) (Z.to_nat (ip vm + 2)))
      as [b2 H2]; [lia|].
    destruct (lookup_lt_is_Some_2 (memory vm) (Z.to_nat (ip vm + 3)))
      as [b3 H3]; [lia|].
    erewrite bind_Ok by (by apply mem_at_Ok).
    erewrite bind_Ok by (by apply mem_at_Ok).
    erewrite bind_Ok by (by apply mem_at_Ok).
    erewrite bind_Ok by (by apply mem_at_Ok).
    eexists. split; [reflexivity|]. by apply Z.mod_pos_bound.
Qed.

(** ** Unknown instructions *)

Section NeverExits.
Context {A B : Type}.

Lemma never_exits_bind (m : M A) (f : A → M B) :
  never_exits m → (∀ a, never_exits (f a)) → never_exits (m ≫= f).
Proof.
  intros Hm Hf vm. specialize (Hm vm). unfold mbind, M_bind.
  destruct (m vm) as [[a vm']|e| |]; try done. apply Hf.
Qed.

Lemma never_exits_ret (a : A) : never_exits (mret a).
Proof. by intros vm. Qed.

Lemma never_exits_undefined : never_exits (@undefined A).
Proof. by intros vm. Qed.
End NeverExits.

Lemma never_exits_get_ip : never_exits get_ip.
Proof. by intros vm. Qed.
Lemma never_exits_get_hi : never_exits get_hi.
Proof. by intros vm. Qed.
Lemma never_exits_get_lo : never_exits get_lo.
Proof. by intros vm. Qed.
Lemma never_exits_set_ip v : never_exits (set_ip v).
Proof. by intros vm. Qed.
Lemma never_exits_set_hi v : never_exits (set_hi v).
Proof. by intros vm. Qed.
Lemma never_exits_set_lo v : never_exits (set_lo v).
Proof. by intros vm. Qed.
Lemma never_exits_reg_at i : never_exits (reg_at i).
Proof. intros vm. unfold reg_at. by destruct (registers vm !! _). Qed.
Lemma never_exits_reg_set i v : never_exits (reg_set i v).
Proof. intros vm. unfold reg_set. by destruct (registers vm !! _). Qed.
Lemma never_exits_mem_at i : never_exits (mem_at i).
Proof. intros vm. unfold mem_at. by destruct (memory vm !! _). Qed.
Lemma never_exits_mem_set i v : never_exits (mem_set i v).
Proof. intros vm. unfold mem_set. by destruct (memory vm !! _). Qed.
Lemma never_exits_int_result z : never_exits (int_result z).
Proof. intros vm. unfold int_result. by destruct (in_int z). Qed.

Create HintDb never_exits.
#[local] Hint Resolve never_exits_ret never_exits_undefined never_exits_get_ip
  never_exits_get_hi never_exits_get_lo never_exits_set_ip never_exits_set_hi
  never_exits_set_lo never_exits_reg_at never_exits_reg_set never_exits_mem_at
  never_exits_mem_set never_exits_int_result : never_exits.

Ltac never_exits_run :=
  autounfold with triple; unfold int_address, unsigned_address;
  repeat first
    [ progress cbv zeta
    | apply never_exits_bind; [|intros ?]
    | match goal with
      | |- never_exits (if ?c then _ else _) => destruct c
      end
    | solve [auto with never_exits] ].

Lemma fetch_never_exits : never_exits fetch.
Proof. unfold fetch. never_exits_run. Qed.

(** The dispatcher ends by [exit(1)] exactly on the words that reach a
    [default:] arm. *)
Lemma dispatch_exits_iff w vm :
  dispatch w vm = Exited ↔ recognised w = false.
Proof.
  unfold recognised.
  cut ((recognised w = true → never_exits (dispatch w)) ∧
       (recognised w = false → dispatch w vm = Exited)).
  { unfold recognised. intros [H1 H2].
    destruct (existsb _ _ && _) eqn:E.
    - split; [|done]. intros H. by destruct (H1 eq_refl vm).
    - split; [done|]. intros _. by apply H2. }
  unfold recognised, dispatch, r_type.
  by_cases_on (extract w OP);
    try (split; [discriminate|done]);
    try (split; [intros _; never_exits_run|discriminate]).
  by_cases_on (extract w FN);
    try (split; [discriminate|done]);
    (split; [intros _; never_exits_run|discriminate]).
Qed.

(** X5.  A cycle ends by [exit(1)] exactly when the fetch succeeds and the
    word fetched has an opcode, or under opcode 0 a function code, without
    a [case]: no recognised instruction exits, and a failed fetch throws
    instead. *)
Theorem cycle_exits_iff vm :
  cycle vm = Exited ↔ ∃ w, fetch vm = Ok (w, vm) ∧ recognised w = false.
Proof.
  split.
  - unfold cycle, mbind, M_bind.
    destruct (fetch vm) as [[w vm']|e| |] eqn:Hf; try done.
    + pose proof (fetch_same _ _ _ Hf) as ->.
      intros H. exists w. split; [done|]. by apply (dispatch_exits_iff w vm).
    + by destruct (fetch_never_exits vm).
  - intros (w & Hf & Hw). rewrite (cycle_dispatch _ _ Hf).
    by apply dispatch_exits_iff.
Qed.

(** ** The program counter, continued *)

(** X6.  Every instruction other than the jumps, the branches and addi
    that completes its cycle leaves [ip] four bytes on (modulo 2^32). *)
Theorem plain_instruction_advances_pc vm w vm' :
  length (registers vm) = 32%nat → fetch vm = Ok (w, vm) →
  plain_instruction w = true →
  cycle vm = Ok (tt, vm') → ip vm' = u32 (ip vm + 4).
Proof.
  intros Hs Hf Hw Hc. rewrite (cycle_dispatch _ _ Hf) in Hc.
  pose proof (dispatch_advances (ip vm) w Hw vm (conj Hs eq_refl)) as H.
  rewrite Hc in H. by destruct H.
Qed.

Lemma plain_instruction_advances_pc_witness :
  length (registers addiu_state) = 32%nat ∧
  fetch addiu_state = Ok (0x24080005, addiu_state) ∧
  plain_instruction 0x24080005 = true ∧
  ip <$> final (cycle addiu_state) = Some (u32 (ip addiu_state + 4)).
Proof.
  split; [reflexivity|split; [reflexivity|split; [reflexivity|]]].
  destruct (cycle addiu_state) as [[[] vm']|e| |] eqn:Hc; try discriminate.
  simpl. f_equal.
  exact (plain_instruction_advances_pc addiu_state 0x24080005 vm'
           eq_refl eq_refl eq_refl Hc).
Defined.

(** X7.  beq takes the branch exactly when the two registers are equal,
    bne when they differ, blez when the register read as an [int] is at
    most zero; the new [ip] is [ip + 4 + (sign_extend(imm16) << 2)] when
    taken and [ip + 4] otherwise, and nothing else changes. *)
Theorem branch_semantics vm w rs rt taken :
  fetch vm = Ok (w, vm) →
  registers vm !! Z.to_nat (extract w RS) = Some rs →
  registers vm !! Z.to_nat (extract w RT) = Some rt →
  (extract w OP = 0x04 ∧ taken = (rs =? rt)) ∨
  (extract w OP = 0x05 ∧ taken = negb (rs =? rt)) ∨
  (extract w OP = 0x06 ∧ taken = (s32 rs <=? 0)) →
  cycle vm = Ok (tt, mkVM (registers vm) (memory vm)
                       (if taken
                        then Spec.branch_target (ip vm) (extract w IMMD)
                        else u32 (ip vm + 4))
                       (hi vm) (lo vm)).
Proof.
  intros Hf Hrs Hrt Hop. rewrite (cycle_dispatch _ _ Hf). unfold dispatch.
  assert (Hb : branch w vm
               = Ok (tt, mkVM (registers vm) (memory vm)
                           (Spec.branch_target (ip vm) (extract w IMMD))
                           (hi vm) (lo vm))).
  { unfold branch, Spec.branch_target. erewrite bind_Ok by reflexivity.
    unfold set_ip. by rewrite Z.add_assoc. }
  destruct Hop as [[-> ->] | [[-> ->] | [-> ->]]]; cbv iota.
  - unfold op_beq.
    erewrite bind_Ok by (unfold reg_at; by rewrite Hrs).
    erewrite bind_Ok by (unfold reg_at; by rewrite Hrt).
    by destruct (rs =? rt).
  - unfold op_bne.
    erewrite bind_Ok by (unfold reg_at; by rewrite Hrs).
    erewrite bind_Ok by (unfold reg_at; by rewrite Hrt).
    by destruct (rs =? rt).
  - unfold op_blez.
    erewrite bind_Ok by (unfold reg_at; by rewrite Hrs).
    cbv zeta. by destruct (s32 rs <=? 0).
Qed.

Lemma branch_semantics_witness :
  fetch bne_state = Ok (0x1401FFFE, bne_state) ∧
  registers bne_state !! Z.to_nat (extract 0x1401FFFE RS) = Some 0 ∧
  registers bne_state !! Z.to_nat (extract 0x1401FFFE RT) = Some 1 ∧
  extract 0x1401FFFE OP = 0x05 ∧
  ip <$> final (cycle bne_state) = Some 0x1C.
Proof.
  split; [reflexivity|split; [reflexivity|split; [reflexivity|]]].
  split; [reflexivity|].
  rewrite (branch_semantics bne_state 0x1401FFFE 0 1 true eq_refl eq_refl
             eq_refl (or_intror (or_introl (conj eq_refl eq_refl)))).
  reflexivity.
Defined.

Lemma u32_mod_4 v : u32 v mod 4 = v mod 4.
Proof. unfold u32. Z.to_euclidean_division_equations. lia. Qed.

Lemma set_ip_aligned p v :
  v mod 4 = 0 → triple (at_pc p) (set_ip v) (λ _ vm, ip vm mod 4 = 0).
Proof. intros Hv vm _. simpl. by rewrite u32_mod_4. Qed.

Lemma jump_target_aligned p w :
  Z.lor (Z.land p 0xF0000000) (extract w ADDR) mod 4 = 0.
Proof.
  rewrite <- u32_mod_4, jump_target_u32. unfold Spec.jump_target.
  change 4 with (2 ^ 2). rewrite <- Z.land_ones by done.
  apply Z.bits_inj'. intros n Hn.
  rewrite Z.land_spec, Z.lor_spec, Z.land_spec, Z.bits_0.
  destruct (Z.lt_ge_cases n 2).
  - rewrite Z.shiftl_spec_low by done.
    replace (Z.testbit 4026531840 n) with false; [by rewrite andb_false_r|].
    assert (n = 0 ∨ n = 1) as [-> | ->] by lia; reflexivity.
  - rewrite Z.ones_spec_high by lia. apply andb_false_r.
Qed.

Lemma dispatch_aligned p w :
  p mod 4 = 0 →
  ¬ (extract w OP = 0 ∧ (extract w FN = 0x08 ∨ extract w FN = 0x09)) →
  triple (at_pc p) (dispatch w) (λ _ vm, ip vm mod 4 = 0).
Proof.
  intros Hp. unfold dispatch.
  assert (H4 : (p + 4) mod 4 = 0)
    by (Z.to_euclidean_division_equations; lia).
  assert (Hb : ∀ k, (p + (4 + Z.shiftl k 2)) mod 4 = 0).
  { intros k. rewrite Z.shiftl_mul_pow2 by done.
    Z.to_euclidean_division_equations; lia. }
  by_cases_on (extract w OP); try (intros _; apply triple_exit_1);
    try (intros _; triple_run;
         first [ apply triple_undefined
               | by apply set_ip_aligned
               | apply set_ip_aligned, jump_target_aligned
               | by intros vm [_ <-] ]).
  unfold r_type.
  by_cases_on (extract w FN); try (intros _; apply triple_exit_1);
    try (intros _; triple_run;
         first [ apply triple_undefined | by apply set_ip_aligned ]).
  all: intros []; split; auto.
Qed.

(** X8.  An [ip] that is a multiple of 4 stays one through every cycle
    that completes, except for jr and jalr, which take [ip] from a
    register. *)
Theorem pc_alignment_preserved vm w vm' :
  length (registers vm) = 32%nat → fetch vm = Ok (w, vm) →
  ip vm mod 4 = 0 →
  ¬ (extract w OP = 0 ∧ (extract w FN = 0x08 ∨ extract w FN = 0x09)) →
  cycle vm = Ok (tt, vm') → ip vm' mod 4 = 0.
Proof.
  intros Hs Hf Hp Hw Hc. rewrite (cycle_dispatch _ _ Hf) in Hc.
  pose proof (dispatch_aligned (ip vm) w Hp Hw vm (conj Hs eq_refl)) as H.
  by rewrite Hc in H.
Qed.

Lemma pc_alignment_preserved_witness :
  length (registers bne_state) = 32%nat ∧
  fetch bne_state = Ok (0x1401FFFE, bne_state) ∧
  ip bne_state mod 4 = 0 ∧
  ∃ vm', cycle bne_state = Ok (tt, vm') ∧ ip vm' mod 4 = 0.
Proof.
  split; [reflexivity|split; [reflexivity|split; [reflexivity|]]].
  exists (mkVM (registers bne_state) (memory bne_state) 0x1C 0 0).
  split; [reflexivity|].
  eapply (pc_alignment_preserved bne_state 0x1401FFFE);
    [reflexivity|reflexivity|reflexivity| |reflexivity].
  intros [H _]. discriminate H.
Defined.

(** ** Invariants of the machine *)

(** A property of the machine that no assignment to a data member can
    break is kept by every computation. *)
Create HintDb keep.

Section Invariant.
Variable I : VirtualMachine → Prop.
Hypothesis I_sized : ∀ vm, I vm → sized vm.
Hypothesis I_set_ip : ∀ vm v,
  I vm → I (mkVM (registers vm) (memory vm) (u32 v) (hi vm) (lo vm)).
Hypothesis I_set_hi : ∀ vm v,
  I vm → I (mkVM (registers vm) (memory vm) (ip vm) (u32 v) (lo vm)).
Hypothesis I_set_lo : ∀ vm v,
  I vm → I (mkVM (registers vm) (memory vm) (ip vm) (hi vm) (u32 v)).
Hypothesis I_reg_set : ∀ vm i v,
  I vm →
  I (mkVM (<[i := u32 v]> (registers vm)) (memory vm) (ip vm) (hi vm) (lo vm)).
Hypothesis I_mem_set : ∀ vm i v,
  I vm →
  I (mkVM (registers vm) (<[i := u8 v]> (memory vm)) (ip vm) (hi vm) (lo vm)).

Lemma keep_bind {A B} (m : M A) (f : A → M B) :
  triple I m (λ _, I) → (∀ a, triple I (f a) (λ _, I)) →
  triple I (m ≫= f) (λ _, I).
Proof. intros Hm Hf. by eapply triple_bind. Qed.

Lemma keep_get_ip : triple I get_ip (λ _, I).
Proof. by intros vm HI. Qed.
Lemma keep_get_hi : triple I get_hi (λ _, I).
Proof. by intros vm HI. Qed.
Lemma keep_get_lo : triple I get_lo (λ _, I).
Proof. by intros vm HI. Qed.
Lemma keep_set_ip v : triple I (set_ip v) (λ _, I).
Proof. intros vm HI. by apply I_set_ip. Qed.
Lemma keep_set_hi v : triple I (set_hi v) (λ _, I).
Proof. intros vm HI. by apply I_set_hi. Qed.
Lemma keep_set_lo v : triple I (set_lo v) (λ _, I).
Proof. intros vm HI. by apply I_set_lo. Qed.

Lemma keep_reg_at i : 0 ≤ i < 32 → triple I (reg_at i) (λ _, I).
Proof.
  intros Hi vm HI. unfold reg_at.
  by destruct (lookup_register vm i (I_sized vm HI) Hi) as [v ->].
Qed.

Lemma keep_reg_set i v : 0 ≤ i < 32 → triple I (reg_set i v) (λ _, I).
Proof.
  intros Hi vm HI. unfold reg_set.
  destruct (lookup_register vm i (I_sized vm HI) Hi) as [v' ->].
  by apply I_reg_set.
Qed.

Lemma keep_mem_at i : triple I (mem_at i) (λ _, I).
Proof. intros vm HI. unfold mem_at. by destruct (memory vm !! _). Qed.

Lemma keep_mem_set i v : triple I (mem_set i v) (λ _, I).
Proof.
  intros vm HI. unfold mem_set.
  destruct (memory vm !! _); [|done]. by apply I_mem_set.
Qed.

Lemma keep_int_result z : triple I (int_result z) (λ _, I).
Proof. intros vm HI. unfold int_result. by destruct (in_int z). Qed.

#[local] Hint Resolve extract_RS_bound extract_RT_bound extract_RD_bound
  keep_get_ip keep_get_hi keep_get_lo keep_set_ip keep_set_hi keep_set_lo
  keep_reg_at keep_reg_set keep_mem_at keep_mem_set keep_int_result
  triple_ret triple_undefined triple_exit_1 : keep.
#[local] Hint Extern 1 (_ ≤ _ < _) => lia : keep.

Ltac keep_run :=
  autounfold with triple; unfold int_address, unsigned_address;
  repeat first
    [ progress cbv zeta
    | apply keep_bind; [|intros ?]
    | match goal with
      | |- triple _ (if ?c then _ else _) _ => destruct c
      end
    | solve [auto with keep] ].

Lemma fetch_keeps : triple I fetch (λ _, I).
Proof. unfold fetch. keep_run. Qed.

Lemma dispatch_keeps w : triple I (dispatch w) (λ _, I).
Proof.
  unfold dispatch.
  by_cases_on (extract w OP); try apply triple_exit_1; try keep_run.
  unfold r_type.
  by_cases_on (extract w FN); try apply triple_exit_1; keep_run.
Qed.

Lemma cycle_keeps : triple I cycle (λ _, I).
Proof.
  unfold cycle. apply keep_bind; [apply fetch_keeps|apply dispatch_keeps].
Qed.

Lemma cycles_keep n : triple I (cycles n) (λ _, I).
Proof.
  induction n as [|n IH]; simpl.
  - apply triple_ret.
  - apply keep_bind; [apply cycle_keeps|by intros _].
Qed.
End Invariant.

Lemma u32_is_word v : is_word (u32 v).
Proof. by apply Z.mod_pos_bound. Qed.

Lemma u8_is_byte v : is_byte (u8 v).
Proof. by apply Z.mod_pos_bound. Qed.

Lemma well_formed_sized size vm : well_formed size vm → sized vm.
Proof. by intros [? _]. Qed.

Lemma well_formed_reg_set size vm i v :
  well_formed size vm →
  well_formed size
    (mkVM (<[i := u32 v]> (registers vm)) (memory vm) (ip vm) (hi vm) (lo vm)).
Proof.
  intros (Hl & Hr & Hn & Hb & Hi & Hh & Ho).
  unfold well_formed; simpl; split_and!; try done.
  - by rewrite length_insert.
  - apply Forall_insert; [done|apply u32_is_word].
Qed.

Lemma well_formed_mem_set size vm i v :
  well_formed size vm →
  well_formed size
    (mkVM (registers vm) (<[i := u8 v]> (memory vm)) (ip vm) (hi vm) (lo vm)).
Proof.
  intros (Hl & Hr & Hn & Hb & Hi & Hh & Ho).
  unfold well_formed; simpl; split_and!; try done.
  - by rewrite length_insert.
  - apply Forall_insert; [done|apply u8_is_byte].
Qed.

Lemma well_formed_set_ip size vm v :
  well_formed size vm →
  well_formed size (mkVM (registers vm) (memory vm) (u32 v) (hi vm) (lo vm)).
Proof.
  intros (Hl & Hr & Hn & Hb & Hi & Hh & Ho).
  unfold well_formed; simpl; split_and!; try done; apply u32_is_word.
Qed.

Lemma well_formed_set_hi size vm v :
  well_formed size vm →
  well_formed size (mkVM (registers vm) (memory vm) (ip vm) (u32 v) (lo vm)).
Proof.
  intros (Hl & Hr & Hn & Hb & Hi & Hh & Ho).
  unfold well_formed; simpl; split_and!; try done; apply u32_is_word.
Qed.

Lemma well_formed_set_lo size vm v :
  well_formed size vm →
  well_formed size (mkVM (registers vm) (memory vm) (ip vm) (hi vm) (u32 v)).
Proof.
  intros (Hl & Hr & Hn & Hb & Hi & Hh & Ho).
  unfold well_formed; simpl; split_and!; try done; apply u32_is_word.
Qed.

Lemma well_formed_boot image entry :
  Forall is_byte image → well_formed (length image) (boot image entry).
Proof.
  intros Hb. unfold well_formed, boot.
  cbn [registers memory ip hi lo]. split_and!; try done.
  - apply Forall_replicate. by unfold is_word.
  - apply u32_is_word.
Qed.

(** X9.  A cycle that completes keeps the machine well formed: 32
    registers, every register, [ip], [hi] and [lo] below 2^32, every byte
    of memory below 2^8, and the memory at the size it had (stores never
    grow it). *)
Theorem cycle_keeps_well_formed size vm vm' :
  well_formed size vm → cycle vm = Ok (tt, vm') → well_formed size vm'.
Proof.
  intros Hwf Hc.
  pose proof (cycle_keeps (well_formed size) (well_formed_sized size)
                (well_formed_set_ip size) (well_formed_set_hi size)
                (well_formed_set_lo size) (well_formed_reg_set size)
                (well_formed_mem_set size) vm Hwf) as H.
  by rewrite Hc in H.
Qed.

(** X10.  From a well-formed machine the 100 cycles of [execute] never
    end by an out-of-range access to the register array, and when they
    complete the machine is still well formed, its memory at the same
    size. *)
Theorem execute_keeps_well_formed size vm :
  well_formed size vm →
  execute vm ≠ Thrown RegistersOutOfRange ∧
  ∀ vm', execute vm = Ok (tt, vm') → well_formed size vm'.
Proof.
  intros Hwf.
  pose proof (cycles_keep (well_formed size) (well_formed_sized size)
                (well_formed_set_ip size) (well_formed_set_hi size)
                (well_formed_set_lo size) (well_formed_reg_set size)
                (well_formed_mem_set size) 100 vm Hwf) as H.
  fold execute in H. split.
  - intros He. by rewrite He in H.
  - intros vm' He. by rewrite He in H.
Qed.

Lemma cycle_keeps_well_formed_witness :
  well_formed 4 addiu_state ∧
  ∃ vm', cycle addiu_state = Ok (tt, vm') ∧ well_formed 4 vm'.
Proof.
  assert (Hwf : well_formed 4 addiu_state).
  { unfold well_formed, is_word, is_byte. simpl.
    split_and!; try reflexivity; try lia; repeat constructor; lia. }
  split; [exact Hwf|].
  exists (mkVM (<[8%nat := 5]> (registers addiu_state)) (memory addiu_state)
               4 0 0).
  split; [reflexivity|].
  by apply (cycle_keeps_well_formed 4 addiu_state).
Defined.

Lemma execute_keeps_well_formed_witness :
  well_formed 4 addi_state ∧
  execute addi_state ≠ Thrown RegistersOutOfRange ∧
  ∃ vm', execute addi_state = Ok (tt, vm') ∧ well_formed 4 vm'.
Proof.
  assert (Hwf : well_formed 4 addi_state).
  { unfold well_formed, is_word, is_byte. simpl.
    split_and!; try reflexivity; try lia; repeat constructor; lia. }
  destruct (execute_keeps_well_formed 4 addi_state Hwf) as [H1 H2].
  split; [exact Hwf|]. split; [exact H1|].
  exists addi_state. split; [reflexivity|]. by apply H2.
Defined.

(** ** Inverting a run that ended normally *)

Lemma bind_inv {A B} (m : M A) (f : A → M B) vm r :
  (m ≫= f) vm = Ok r → ∃ a vm', m vm = Ok (a, vm') ∧ f a vm' = Ok r.
Proof.
  unfold mbind, M_bind. destruct (m vm) as [[a vm']|e| |]; try done.
  intros H. by exists a, vm'.
Qed.

Lemma reg_at_inv i vm v vm' :
  reg_at i vm = Ok (v, vm') →
  vm' = vm ∧ registers vm !! Z.to_nat i = Some v.
Proof.
  unfold reg_at. destruct (registers vm !! _); [|done].
  by intros [= -> ->].
Qed.

Lemma mem_at_inv i vm v vm' :
  mem_at i vm = Ok (v, vm') → vm' = vm ∧ memory vm !! Z.to_nat i = Some v.
Proof.
  unfold mem_at. destruct (memory vm !! _); [|done].
  by intros [= -> ->].
Qed.

Lemma mem_set_inv i v vm u vm' :
  mem_set i v vm = Ok (u, vm') →
  (Z.to_nat i < length (memory vm))%nat ∧
  vm' = mkVM (registers vm) (<[Z.to_nat i := u8 v]> (memory vm))
             (ip vm) (hi vm) (lo vm).
Proof.
  unfold mem_set. destruct (memory vm !! _) eqn:E; [|done].
  intros [= <-]. split; [|done]. by apply lookup_lt_Some in E.
Qed.

Lemma int_result_inv z vm a vm' :
  int_result z vm = Ok (a, vm') → a = z ∧ vm' = vm ∧ - 2 ^ 31 ≤ z < 2 ^ 31.
Proof.
  unfold int_result. destruct (in_int z) eqn:E; [|done].
  intros [= <- <-]. by apply in_int_spec in E.
Qed.

Lemma int_result_Ok z vm :
  - 2 ^ 31 ≤ z < 2 ^ 31 → int_result z vm = Ok (z, vm).
Proof.
  intros Hz. unfold int_result. apply in_int_spec in Hz. by rewrite Hz.
Qed.

Lemma int_address_inv w vm a vm' :
  int_address w vm = Ok (a, vm') →
  vm' = vm ∧ - 2 ^ 31 ≤ a < 2 ^ 31 ∧
  ∃ rs, registers vm !! Z.to_nat (extract w RS) = Some rs
        ∧ a = s32 rs + s16 (extract w IMMD).
Proof.
  unfold int_address. intros H.
  apply bind_inv in H as (rs & vm0 & Hrs & H).
  apply reg_at_inv in Hrs as [-> Hrs].
  apply int_result_inv in H as (-> & -> & Hin).
  split; [done|]. split; [done|]. by exists rs.
Qed.

Lemma int_address_Ok w vm rs :
  registers vm !! Z.to_nat (extract w RS) = Some rs →
  - 2 ^ 31 ≤ s32 rs + s16 (extract w IMMD) < 2 ^ 31 →
  int_address w vm = Ok (s32 rs + s16 (extract w IMMD), vm).
Proof.
  intros Hrs Hin. unfold int_address.
  erewrite bind_Ok by (unfold reg_at; by rewrite Hrs).
  by apply int_result_Ok.
Qed.

(** Two addresses an [int] can hold index different bytes. *)
Lemma index_inj x y :
  - 2 ^ 31 ≤ x < 2 ^ 31 → - 2 ^ 31 ≤ y < 2 ^ 31 → x ≠ y →
  Z.to_nat (u64 x) ≠ Z.to_nat (u64 y).
Proof.
  intros Hx Hy Hne Heq. apply Hne.
  assert (0 ≤ u64 x < 2 ^ 64) by (by apply Z.mod_pos_bound).
  assert (0 ≤ u64 y < 2 ^ 64) by (by apply Z.mod_pos_bound).
  apply Z2Nat.inj in Heq; [|lia..]. unfold u64 in *.
  Z.to_euclidean_division_equations. lia.
Qed.

Lemma u32_s32_id z : u32 (s32 z) = u32 z.
Proof. rewrite <- (Z.add_0_r (s32 z)), u32_s32. by rewrite Z.add_0_r. Qed.

(** ** Stores followed by loads *)

(** The four bytes sw writes, read back the way lw reads them. *)
Lemma stored_word_bytes v :
  is_word v →
  Z.lor (Z.lor (Z.lor (Z.shiftl (u8 (Z.shiftr (Z.land v 0xFF000000) 24)) 24)
                      (Z.shiftl (u8 (Z.shiftr (Z.land v 0x00FF0000) 16)) 16))
               (Z.shiftl (u8 (Z.shiftr (Z.land v 0x0000FF00) 8)) 8))
        (u8 (Z.land v 0x000000FF)) = v.
Proof.
  intros Hv. unfold is_word in Hv.
  rewrite big_endian_word by (by apply Z.mod_pos_bound).
  rewrite (field_div_mod v _ 24 8), (field_div_mod v _ 16 8),
    (field_div_mod v _ 8 8) by done.
  change 0x000000FF with (Z.ones 8). rewrite Z.land_ones by done.
  unfold u8. Z.to_euclidean_division_equations. lia.
Qed.

(** X11.  After sw has stored a register, lw with the same base register
    and offset loads the same word back, at any address (aligned or
    not). *)
Theorem sw_lw_round_trip vm vm1 w w' v :
  length (registers vm) = 32%nat →
  registers vm !! Z.to_nat (extract w RT) = Some v → is_word v →
  extract w' RS = extract w RS → extract w' IMMD = extract w IMMD →
  op_sw w vm = Ok (tt, vm1) →
  ∃ vm2, op_lw w' vm1 = Ok (tt, vm2) ∧
         registers vm2 !! Z.to_nat (extract w' RT) = Some v.
Proof.
  intros Hs Hv Hword Hrs' Himm' Hsw. unfold op_sw in Hsw. cbv zeta in Hsw.
  apply bind_inv in Hsw as (a & vm0 & Ha & Hsw).
  apply int_address_inv in Ha as (-> & Hin & rs & Hrs & Haddr).
  apply bind_inv in Hsw as (v0 & vm0 & Hv0 & Hsw).
  apply reg_at_inv in Hv0 as [-> Hv0].
  assert (v0 = v) as -> by congruence. clear Hv0.
  apply bind_inv in Hsw as ([] & vmA & HA & Hsw).
  apply mem_set_inv in HA as [Hi0 ->].
  apply bind_inv in Hsw as (v0 & vm0 & Hv0 & Hsw).
  apply reg_at_inv in Hv0 as [-> Hv0]. cbn [registers] in Hv0.
  assert (v0 = v) as -> by congruence. clear Hv0.
  apply bind_inv in Hsw as (a1 & vm0 & Ha1 & Hsw).
  apply int_result_inv in Ha1 as (-> & -> & Hin1).
  apply bind_inv in Hsw as ([] & vmB & HB & Hsw).
  apply mem_set_inv in HB as [Hi1 ->]. cbn [memory registers ip hi lo] in *.
  apply bind_inv in Hsw as (v0 & vm0 & Hv0 & Hsw).
  apply reg_at_inv in Hv0 as [-> Hv0]. cbn [registers] in Hv0.
  assert (v0 = v) as -> by congruence. clear Hv0.
  apply bind_inv in Hsw as (a2 & vm0 & Ha2 & Hsw).
  apply int_result_inv in Ha2 as (-> & -> & Hin2).
  apply bind_inv in Hsw as ([] & vmC & HC & Hsw).
  apply mem_set_inv in HC as [Hi2 ->]. cbn [memory registers ip hi lo] in *.
  apply bind_inv in Hsw as (v0 & vm0 & Hv0 & Hsw).
  apply reg_at_inv in Hv0 as [-> Hv0]. cbn [registers] in Hv0.
  assert (v0 = v) as -> by congruence. clear Hv0.
  apply bind_inv in Hsw as (a3 & vm0 & Ha3 & Hsw).
  apply int_result_inv in Ha3 as (-> & -> & Hin3).
  apply bind_inv in Hsw as ([] & vmD & HD & Hsw).
  apply mem_set_inv in HD as [Hi3 ->]. cbn [memory registers ip hi lo] in *.
  injection Hsw as <-.
  rewrite !length_insert in *.
  set (i0 := Z.to_nat (u64 a)) in *.
  set (i1 := Z.to_nat (u64 (a + 1))) in *.
  set (i2 := Z.to_nat (u64 (a + 2))) in *.
  set (i3 := Z.to_nat (u64 (a + 3))) in *.
  assert (i0 ≠ i1 ∧ i0 ≠ i2 ∧ i0 ≠ i3 ∧ i1 ≠ i2 ∧ i1 ≠ i3 ∧ i2 ≠ i3)
    as (N01 & N02 & N03 & N12 & N13 & N23)
    by (split_and!; apply index_inj; lia).
  unfold op_lw.
  erewrite bind_Ok; cycle 1.
  { apply (int_address_Ok w' _ rs).
    - by rewrite Hrs'.
    - by rewrite Himm', <- Haddr. }
  rewrite Himm', <- Haddr.
  erewrite bind_Ok; cycle 1.
  { apply mem_at_Ok. cbn [memory]. fold i0.
    rewrite !list_lookup_insert_ne by done.
    by apply list_lookup_insert_eq. }
  erewrite bind_Ok by (by apply int_result_Ok).
  erewrite bind_Ok; cycle 1.
  { apply mem_at_Ok. cbn [memory]. fold i1.
    rewrite !list_lookup_insert_ne by done.
    apply list_lookup_insert_eq. by rewrite length_insert. }
  erewrite bind_Ok by (by apply int_result_Ok).
  erewrite bind_Ok; cycle 1.
  { apply mem_at_Ok. cbn [memory]. fold i2.
    rewrite !list_lookup_insert_ne by done.
    apply list_lookup_insert_eq. by rewrite !length_insert. }
  erewrite bind_Ok by (by apply int_result_Ok).
  erewrite bind_Ok; cycle 1.
  { apply mem_at_Ok. cbn [memory]. fold i3.
    apply list_lookup_insert_eq. by rewrite !length_insert. }
  cbv zeta. rewrite stored_word_bytes by done.
  erewrite bind_Ok; cycle 1.
  { apply reg_set_Ok; [done|apply extract_RT_bound]. }
  eexists. split; [reflexivity|]. cbn [registers].
  rewrite u32_s32_id, (u32_small v) by done.
  apply list_lookup_insert_eq. pose proof (extract_RT_bound w'). lia.
Qed.

Lemma sw_lw_round_trip_witness :
  length (registers sw_state) = 32%nat ∧
  registers sw_state !! Z.to_nat (extract 0xAC010008 RT) = Some 0xDEADBEEF ∧
  is_word 0xDEADBEEF ∧
  extract 0x8C020008 RS = extract 0xAC010008 RS ∧
  extract 0x8C020008 IMMD = extract 0xAC010008 IMMD ∧
  ∃ vm1 vm2, op_sw 0xAC010008 sw_state = Ok (tt, vm1) ∧
             op_lw 0x8C020008 vm1 = Ok (tt, vm2) ∧
             registers vm2 !! Z.to_nat (extract 0x8C020008 RT)
             = Some 0xDEADBEEF.
Proof.
  assert (Hw : is_word 0xDEADBEEF) by (unfold is_word; lia).
  split_and!; try reflexivity; try exact Hw.
  destruct (op_sw 0xAC010008 sw_state) as [[[] vm1]|e| |] eqn:Hsw;
    try discriminate.
  destruct (sw_lw_round_trip sw_state vm1 0xAC010008 0x8C020008 0xDEADBEEF
              eq_refl eq_refl Hw eq_refl eq_refl Hsw) as (vm2 & H2 & HR).
  by exists vm1, vm2.
Defined.

(** X12.  After sb has stored a register, lb with the same base register
    and offset loads its low byte back, sign-extended to 32 bits. *)
Theorem sb_lb_round_trip vm vm1 w w' v :
  length (registers vm) = 32%nat →
  registers vm !! Z.to_nat (extract w RT) = Some v →
  extract w' RS = extract w RS → extract w' IMMD = extract w IMMD →
  op_sb w vm = Ok (tt, vm1) →
  ∃ vm2, op_lb w' vm1 = Ok (tt, vm2) ∧
         registers vm2 !! Z.to_nat (extract w' RT) = Some (u32 (s8 v)).
Proof.
  intros Hs Hv Hrs' Himm' Hsb. unfold op_sb in Hsb.
  apply bind_inv in Hsb as (a & vm0 & Ha & Hsb).
  apply int_address_inv in Ha as (-> & Hin & rs & Hrs & Haddr).
  apply bind_inv in Hsb as (v0 & vm0 & Hv0 & Hsb).
  apply reg_at_inv in Hv0 as [-> Hv0].
  assert (v0 = v) as -> by congruence. clear Hv0.
  apply bind_inv in Hsb as ([] & vmA & HA & Hsb).
  apply mem_set_inv in HA as [Hi0 ->].
  injection Hsb as <-.
  unfold op_lb.
  erewrite bind_Ok; cycle 1.
  { apply (int_address_Ok w' _ rs).
    - by rewrite Hrs'.
    - by rewrite Himm', <- Haddr. }
  rewrite Himm', <- Haddr.
  erewrite bind_Ok; cycle 1.
  { apply mem_at_Ok. cbn [memory]. by apply list_lookup_insert_eq. }
  cbv zeta.
  erewrite bind_Ok; cycle 1.
  { apply reg_set_Ok; [done|apply extract_RT_bound]. }
  eexists. split; [reflexivity|]. cbn [registers].
  replace (s8 (u8 v)) with (s8 v)
    by (unfold s8, u8; by rewrite Z.mod_mod).
  apply list_lookup_insert_eq. pose proof (extract_RT_bound w'). lia.
Qed.

Lemma sb_lb_round_trip_witness :
  length (registers sb_state) = 32%nat ∧
  registers sb_state !! Z.to_nat (extract 0xA0010008 RT) = Some 0x1234ABCD ∧
  extract 0x80020008 RS = extract 0xA0010008 RS ∧
  extract 0x80020008 IMMD = extract 0xA0010008 IMMD ∧
  ∃ vm1 vm2, op_sb 0xA0010008 sb_state = Ok (tt, vm1) ∧
             op_lb 0x80020008 vm1 = Ok (tt, vm2) ∧
             registers vm2 !! Z.to_nat (extract 0x80020008 RT)
             = Some 0xFFFFFFCD.
Proof.
  split_and!; try reflexivity.
  destruct (op_sb 0xA0010008 sb_state) as [[[] vm1]|e| |] eqn:Hsb;
    try discriminate.
  destruct (sb_lb_round_trip sb_state vm1 0xA0010008 0x80020008 0x1234ABCD
              eq_refl eq_refl eq_refl eq_refl Hsb) as (vm2 & H2 & HR).
  by exists vm1, vm2.
Defined.

(** The two bytes sh writes, read back the way lh reads them. *)
Lemma stored_half_bytes v :
  Z.lor (Z.shiftl (u8 (Z.shiftr (Z.land v 0xFF00) 8)) 8)
        (u8 (Z.land v 0x00FF)) = u16 v.
Proof.
  rewrite lor_shiftl_add by (by try apply Z.mod_pos_bound).
  rewrite (field_div_mod v _ 8 8) by done.
  change 0x00FF with (Z.ones 8). rewrite Z.land_ones by done.
  unfold u8, u16. Z.to_euclidean_division_equations. lia.
Qed.

(** X13.  After sh has stored a register, lh with the same base register
    and offset loads its low halfword back, sign-extended to 32 bits. *)
Theorem sh_lh_round_trip vm vm1 w w' v :
  length (registers vm) = 32%nat →
  registers vm !! Z.to_nat (extract w RT) = Some v →
  extract w' RS = extract w RS → extract w' IMMD = extract w IMMD →
  op_sh w vm = Ok (tt, vm1) →
  ∃ vm2, op_lh w' vm1 = Ok (tt, vm2) ∧
         registers vm2 !! Z.to_nat (extract w' RT) = Some (u32 (s16 v)).
Proof.
  intros Hs Hv Hrs' Himm' Hsh. unfold op_sh in Hsh. cbv zeta in Hsh.
  apply bind_inv in Hsh as (a & vm0 & Ha & Hsh).
  apply int_address_inv in Ha as (-> & Hin & rs & Hrs & Haddr).
  apply bind_inv in Hsh as (v0 & vm0 & Hv0 & Hsh).
  apply reg_at_inv in Hv0 as [-> Hv0].
  assert (v0 = v) as -> by congruence. clear Hv0.
  apply bind_inv in Hsh as ([] & vmA & HA & Hsh).
  apply mem_set_inv in HA as [Hi0 ->].
  apply bind_inv in Hsh as (v0 & vm0 & Hv0 & Hsh).
  apply reg_at_inv in Hv0 as [-> Hv0]. cbn [registers] in Hv0.
  assert (v0 = v) as -> by congruence. clear Hv0.
  apply bind_inv in Hsh as (a1 & vm0 & Ha1 & Hsh).
  apply int_result_inv in Ha1 as (-> & -> & Hin1).
  apply bind_inv in Hsh as ([] & vmB & HB & Hsh).
  apply mem_set_inv in HB as [Hi1 ->]. cbn [memory registers ip hi lo] in *.
  injection Hsh as <-.
  rewrite !length_insert in *.
  assert (Z.to_nat (u64 a) ≠ Z.to_nat (u64 (a + 1))) as N01
    by (apply index_inj; lia).
  unfold op_lh.
  erewrite bind_Ok; cycle 1.
  { apply (int_address_Ok w' _ rs).
    - by rewrite Hrs'.
    - by rewrite Himm', <- Haddr. }
  rewrite Himm', <- Haddr.
  erewrite bind_Ok; cycle 1.
  { apply mem_at_Ok. cbn [memory].
    rewrite list_lookup_insert_ne by done.
    by apply list_lookup_insert_eq. }
  erewrite bind_Ok by (by apply int_result_Ok).
  erewrite bind_Ok; cycle 1.
  { apply mem_at_Ok. cbn [memory].
    apply list_lookup_insert_eq. by rewrite length_insert. }
  cbv zeta. rewrite stored_half_bytes.
  erewrite bind_Ok; cycle 1.
  { apply reg_set_Ok; [done|apply extract_RT_bound]. }
  eexists. split; [reflexivity|]. cbn [registers].
  replace (s16 (u16 v)) with (s16 v)
    by (unfold s16, u16; by rewrite Z.mod_mod).
  apply list_lookup_insert_eq. pose proof (extract_RT_bound w'). lia.
Qed.

Lemma sh_lh_round_trip_witness :
  length (registers sh_state) = 32%nat ∧
  registers sh_state !! Z.to_nat (extract 0xA4010008 RT) = Some 0x1234ABCD ∧
  extract 0x84020008 RS = extract 0xA4010008 RS ∧
  extract 0x84020008 IMMD = extract 0xA4010008 IMMD ∧
  ∃ vm1 vm2, op_sh 0xA4010008 sh_state = Ok (tt, vm1) ∧
             op_lh 0x84020008 vm1 = Ok (tt, vm2) ∧
             registers vm2 !! Z.to_nat (extract 0x84020008 RT)
             = Some 0xFFFFABCD.
Proof.
  split_and!; try reflexivity.
  destruct (op_sh 0xA4010008 sh_state) as [[[] vm1]|e| |] eqn:Hsh;
    try discriminate.
  destruct (sh_lh_round_trip sh_state vm1 0xA4010008 0x84020008 0x1234ABCD
              eq_refl eq_refl eq_refl eq_refl Hsh) as (vm2 & H2 & HR).
  by exists vm1, vm2.
Defined.

(** ** Calls and returns *)

(** X14.  jal followed by jr on register 31 ends at the instruction after
    the jal: [ip] is the old [ip + 4], which is also what register 31
    holds. *)
Theorem jal_jr_returns vm w w' :
  length (registers vm) = 32%nat → extract w' RS = 31 →
  (op_jal w ≫= λ _, fn_jr w') vm
  = Ok (tt, mkVM (<[31%nat := u32 (ip vm + 4)]> (registers vm)) (memory vm)
               (u32 (ip vm + 4)) (hi vm) (lo vm)).
Proof.
  intros Hs H31. unfold op_jal.
  erewrite bind_Ok; cycle 1.
  { erewrite bind_Ok by reflexivity.
    erewrite bind_Ok by (by apply reg_set_Ok).
    erewrite bind_Ok by reflexivity. reflexivity. }
  unfold fn_jr. rewrite H31.
  erewrite bind_Ok; cycle 1.
  { unfold reg_at. cbn [registers].
    change (Z.to_nat 31) with 31%nat.
    rewrite list_lookup_insert_eq by (rewrite Hs; lia). reflexivity. }
  unfold set_ip. cbn [registers memory ip hi lo].
  change (Z.to_nat 31) with 31%nat.
  unfold u32. by rewrite Z.mod_mod.
Qed.

Lemma jal_jr_returns_witness :
  length (registers jal_state) = 32%nat ∧ extract 0x03E00008 RS = 31 ∧
  ip <$> final ((op_jal 0x0C000004 ≫= λ _, fn_jr 0x03E00008) jal_state)
  = Some 4.
Proof.
  split; [reflexivity|split; [reflexivity|]].
  by rewrite (jal_jr_returns jal_state 0x0C000004 0x03E00008 eq_refl eq_refl).
Defined.

(** X15.  jalr writes the link [ip + 4] to the RD register before it reads
    the RS register: when both fields name the same register the new
    [ip] is [ip + 4], not the register's old value; otherwise it is the
    value of the RS register. *)
Theorem jalr_links_before_reading vm w r :
  length (registers vm) = 32%nat → fetch vm = Ok (w, vm) →
  extract w OP = 0 → extract w FN = 0x09 →
  registers vm !! Z.to_nat (extract w RS) = Some r →
  cycle vm
  = Ok (tt, mkVM (<[Z.to_nat (extract w RD) := u32 (ip vm + 4)]> (registers vm))
               (memory vm)
               (if extract w RD =? extract w RS then u32 (ip vm + 4)
                else u32 r)
               (hi vm) (lo vm)).
Proof.
  intros Hs Hf Hop Hfn Hr. rewrite (cycle_dispatch _ _ Hf). unfold dispatch.
  rewrite Hop. cbv iota. unfold r_type. rewrite Hfn. cbv iota.
  unfold fn_jalr.
  pose proof (extract_RD_bound w) as Hrd.
  pose proof (extract_RS_bound w) as Hrs.
  erewrite bind_Ok by reflexivity.
  erewrite bind_Ok by (by apply reg_set_Ok).
  destruct (Z.eqb_spec (extract w RD) (extract w RS)) as [Heq|Hne].
  - erewrite bind_Ok; cycle 1.
    { unfold reg_at. cbn [registers]. rewrite Heq.
      rewrite list_lookup_insert_eq by (rewrite Hs; lia). reflexivity. }
    unfold set_ip. cbn [registers memory ip hi lo].
    rewrite Heq. unfold u32. by rewrite Z.mod_mod.
  - erewrite bind_Ok; cycle 1.
    { unfold reg_at. cbn [registers].
      rewrite list_lookup_insert_ne by lia. rewrite Hr. reflexivity. }
    reflexivity.
Qed.

Lemma jalr_links_before_reading_witness :
  length (registers jalr_same_state) = 32%nat ∧
  fetch jalr_same_state = Ok (0x00401009, jalr_same_state) ∧
  extract 0x00401009 OP = 0 ∧ extract 0x00401009 FN = 0x09 ∧
  registers jalr_same_state !! Z.to_nat (extract 0x00401009 RS) = Some 0x40 ∧
  ip <$> final (cycle jalr_same_state) = Some 4.
Proof.
  split_and!; [reflexivity..|].
  by rewrite (jalr_links_before_reading jalr_same_state 0x00401009 0x40
                eq_refl eq_refl eq_refl eq_refl eq_refl).
Defined.

(** ** Addresses below zero *)

Lemma mem_set_out vm i v :
  0 ≤ i → Z.of_nat (length (memory vm)) ≤ i →
  mem_set i v vm = Thrown MemoryOutOfRange.
Proof.
  intros Hi Hlen. unfold mem_set.
  rewrite (lookup_ge_None_2 (memory vm) (Z.to_nat i)); [done|lia].
Qed.

Lemma bind_Thrown {A B} (m : M A) (f : A → M B) vm e :
  m vm = Thrown e → (m ≫= f) vm = Thrown e.
Proof. unfold mbind, M_bind. by intros ->. Qed.

(** X16.  When base register plus sign-extended offset is negative (and
    still an [int]), lb, lh, lw, sb, sh and sw all throw out of range,
    for every memory of at most 2^32 - 1 bytes: the address is converted
    to [size_t] and lies beyond any such memory. *)
Theorem negative_address_faults vm w rs :
  length (registers vm) = 32%nat →
  registers vm !! Z.to_nat (extract w RS) = Some rs →
  - 2 ^ 31 ≤ s32 rs + s16 (extract w IMMD) < 0 →
  Z.of_nat (length (memory vm)) ≤ 2 ^ 32 - 1 →
  op_lb w vm = Thrown MemoryOutOfRange ∧
  op_lh w vm = Thrown MemoryOutOfRange ∧
  op_lw w vm = Thrown MemoryOutOfRange ∧
  op_sb w vm = Thrown MemoryOutOfRange ∧
  op_sh w vm = Thrown MemoryOutOfRange ∧
  op_sw w vm = Thrown MemoryOutOfRange.
Proof.
  intros Hs Hrs Ha Hlen.
  set (a := s32 rs + s16 (extract w IMMD)) in *.
  assert (Haddr : int_address w vm = Ok (a, vm))
    by (apply int_address_Ok; [done|fold a; lia]).
  assert (Hbig : 0 ≤ u64 a ∧ Z.of_nat (length (memory vm)) ≤ u64 a).
  { unfold u64. Z.to_euclidean_division_equations. lia. }
  destruct Hbig as [H0 Hbig].
  destruct (reg_at_Ok vm (extract w RT) Hs (extract_RT_bound w))
    as (v & _ & Hv).
  split_and!.
  - unfold op_lb. rewrite (bind_Ok _ _ _ _ _ Haddr).
    apply bind_Thrown. by apply mem_at_out.
  - unfold op_lh. rewrite (bind_Ok _ _ _ _ _ Haddr).
    apply bind_Thrown. by apply mem_at_out.
  - unfold op_lw. rewrite (bind_Ok _ _ _ _ _ Haddr).
    apply bind_Thrown. by apply mem_at_out.
  - unfold op_sb. rewrite (bind_Ok _ _ _ _ _ Haddr), (bind_Ok _ _ _ _ _ Hv).
    apply bind_Thrown. by apply mem_set_out.
  - unfold op_sh. rewrite (bind_Ok _ _ _ _ _ Haddr). cbv zeta.
    rewrite (bind_Ok _ _ _ _ _ Hv).
    apply bind_Thrown. by apply mem_set_out.
  - unfold op_sw. rewrite (bind_Ok _ _ _ _ _ Haddr). cbv zeta.
    rewrite (bind_Ok _ _ _ _ _ Hv).
    apply bind_Thrown. by apply mem_set_out.
Qed.

Lemma negative_address_faults_witness :
  length (registers lb_negative_state) = 32%nat ∧
  registers lb_negative_state !! Z.to_nat (extract 0x8002FFFC RS) = Some 0 ∧
  - 2 ^ 31 ≤ s32 0 + s16 (extract 0x8002FFFC IMMD) < 0 ∧
  Z.of_nat (length (memory lb_negative_state)) ≤ 2 ^ 32 - 1 ∧
  op_lb 0x8002FFFC lb_negative_state = Thrown MemoryOutOfRange.
Proof.
  assert (H1 : - 2 ^ 31 ≤ s32 0 + s16 (extract 0x8002FFFC IMMD) < 0)
    by (vm_compute; split; [discriminate|reflexivity]).
  assert (H2 : Z.of_nat (length (memory lb_negative_state)) ≤ 2 ^ 32 - 1)
    by (vm_compute; discriminate).
  split; [reflexivity|split; [reflexivity|split; [exact H1|split; [exact H2|]]]].
  exact (proj1 (negative_address_faults lb_negative_state 0x8002FFFC 0
                  eq_refl eq_refl H1 H2)).
Defined.

(** ** Additions *)

Lemma u32_idem z : u32 (u32 z) = u32 z.
Proof. unfold u32. by rewrite Z.mod_mod. Qed.

(** X17.  addiu stores [R[rs] + sign_extend(imm16)] modulo 2^32 in the RT
    register and moves [ip] four bytes on. *)
Theorem addiu_wraps vm w rs :
  length (registers vm) = 32%nat → fetch vm = Ok (w, vm) →
  extract w OP = 0x09 →
  registers vm !! Z.to_nat (extract w RS) = Some rs →
  cycle vm
  = Ok (tt, mkVM (<[Z.to_nat (extract w RT)
                    := u32 (rs + s16 (extract w IMMD))]> (registers vm))
               (memory vm) (u32 (ip vm + 4)) (hi vm) (lo vm)).
Proof.
  intros Hs Hf Hop Hrs. rewrite (cycle_dispatch _ _ Hf). unfold dispatch.
  rewrite Hop. cbv iota. unfold op_addiu.
  erewrite bind_Ok by (unfold reg_at; by rewrite Hrs). cbv zeta.
  erewrite bind_Ok by (apply reg_set_Ok; [done|apply extract_RT_bound]).
  rewrite u32_s32_id, u32_idem, (Z.add_comm (s16 _) rs). reflexivity.
Qed.

Lemma addiu_wraps_witness :
  length (registers addiu_minus_state) = 32%nat ∧
  fetch addiu_minus_state = Ok (0x2422FFFF, addiu_minus_state) ∧
  extract 0x2422FFFF OP = 0x09 ∧
  registers addiu_minus_state !! Z.to_nat (extract 0x2422FFFF RS) = Some 0 ∧
  (final (cycle addiu_minus_state) ≫= λ vm, R vm 2) = Some 0xFFFFFFFF.
Proof.
  split_and!; [reflexivity..|].
  by rewrite (addiu_wraps addiu_minus_state 0x2422FFFF 0
                eq_refl eq_refl eq_refl eq_refl).
Defined.

(** X18.  Whenever add completes (its sum fits an [int]), addu on the
    same word and machine completes with the same machine. *)
Theorem add_agrees_with_addu w vm vm' :
  fn_add w vm = Ok (tt, vm') → fn_addu w vm = Ok (tt, vm').
Proof.
  unfold fn_add, fn_addu. intros H.
  apply bind_inv in H as (rs & vm0 & Hrs & H).
  pose proof (reg_at_inv _ _ _ _ Hrs) as [-> _].
  apply bind_inv in H as (rt & vm0 & Hrt & H).
  pose proof (reg_at_inv _ _ _ _ Hrt) as [-> _].
  apply bind_inv in H as (sum & vm0 & Hsum & H).
  apply int_result_inv in Hsum as (-> & -> & _).
  rewrite (bind_Ok _ _ _ _ _ Hrs), (bind_Ok _ _ _ _ _ Hrt). cbv zeta.
  rewrite <- H. unfold mbind, M_bind, reg_set.
  destruct (registers vm !! _); [|done].
  replace (u32 (u32 (rs + rt))) with (u32 (s32 rs + s32 rt)); [done|].
  by rewrite u32_idem, u32_s32, Z.add_comm, u32_s32, Z.add_comm.
Qed.

Lemma add_agrees_with_addu_witness :
  ∃ vm', fn_add 0x00221820 add_state = Ok (tt, vm') ∧
         fn_addu 0x00221820 add_state = Ok (tt, vm') ∧
         R vm' 3 = Some 4.
Proof.
  destruct (fn_add 0x00221820 add_state) as [[[] vm']|e| |] eqn:Hadd;
    try discriminate.
  exists vm'. split; [reflexivity|].
  split; [exact (add_agrees_with_addu _ _ _ Hadd)|].
  injection Hadd as <-. reflexivity.
Defined.

(** ** Division, continued *)

Lemma s32_range z : - 2 ^ 31 ≤ s32 z < 2 ^ 31.
Proof.
  unfold s32. pose proof (Z.mod_pos_bound z (2 ^ 32) eq_refl) as H.
  fold (u32 z) in H. destruct (Z.ltb_spec (u32 z) (2 ^ 31)); lia.
Qed.

Lemma s32_u32_int z : - 2 ^ 31 ≤ z < 2 ^ 31 → s32 (u32 z) = z.
Proof.
  intros Hz. unfold s32. rewrite u32_idem. unfold u32.
  destruct (Z.ltb_spec (z mod 2 ^ 32) (2 ^ 31));
    Z.to_euclidean_division_equations; lia.
Qed.

(** X19.  When divu completes, the divisor is not zero and
    [R[rs] = LO * R[rt] + HI] with [0 <= HI < R[rt]]. *)
Theorem divu_quotient_remainder vm w rs rt vm' :
  fetch vm = Ok (w, vm) → extract w OP = 0 → extract w FN = 0x1B →
  registers vm !! Z.to_nat (extract w RS) = Some rs →
  registers vm !! Z.to_nat (extract w RT) = Some rt →
  is_word rs → is_word rt →
  cycle vm = Ok (tt, vm') →
  rt ≠ 0 ∧ rs = lo vm' * rt + hi vm' ∧ 0 ≤ hi vm' < rt.
Proof.
  intros Hf Hop Hfn Hrs Hrt Hwrs Hwrt Hc. unfold is_word in *.
  destruct (Z.eq_dec rt 0) as [->|Hne].
  { rewrite (cycle_dispatch _ _ Hf) in Hc. unfold dispatch in Hc.
    rewrite Hop in Hc. cbv iota in Hc. unfold r_type in Hc.
    rewrite Hfn in Hc. cbv iota in Hc. unfold fn_divu in Hc.
    erewrite bind_Ok in Hc by (unfold reg_at; by rewrite Hrs).
    erewrite bind_Ok in Hc by (unfold reg_at; by rewrite Hrt).
    discriminate Hc. }
  rewrite (divu_nonzero vm w rs rt Hf Hop Hfn Hrs Hrt Hne) in Hc.
  injection Hc as <-. cbn [hi lo].
  pose proof (Z.mod_pos_bound rs rt ltac:(lia)) as Hm.
  pose proof (Z.div_pos rs rt ltac:(lia) ltac:(lia)) as Hd.
  pose proof (Z.div_le_upper_bound rs rt rs ltac:(lia) ltac:(nia)) as Hu.
  rewrite !u32_small by lia.
  split; [done|]. split; [|done].
  pose proof (Z.div_mod rs rt Hne). lia.
Qed.

Lemma divu_quotient_remainder_witness :
  fetch divu_two_state = Ok (0x0022001B, divu_two_state) ∧
  extract 0x0022001B OP = 0 ∧ extract 0x0022001B FN = 0x1B ∧
  registers divu_two_state !! Z.to_nat (extract 0x0022001B RS) = Some 7 ∧
  registers divu_two_state !! Z.to_nat (extract 0x0022001B RT) = Some 2 ∧
  is_word 7 ∧ is_word 2 ∧
  ∃ vm', cycle divu_two_state = Ok (tt, vm') ∧
         7 = lo vm' * 2 + hi vm' ∧ 0 ≤ hi vm' < 2.
Proof.
  assert (H7 : is_word 7) by (unfold is_word; lia).
  assert (H2 : is_word 2) by (unfold is_word; lia).
  split_and!; [reflexivity..|exact H7|exact H2|].
  destruct (cycle divu_two_state) as [[[] vm']|e| |] eqn:Hc;
    try discriminate.
  exists vm'. split; [reflexivity|].
  exact (proj2 (divu_quotient_remainder divu_two_state 0x0022001B 7 2 vm'
                  eq_refl eq_refl eq_refl eq_refl eq_refl H7 H2 Hc)).
Defined.

(** X20.  When div completes, the divisor is not zero and, reading
    registers, HI and LO as [int], [R[rs] = LO * R[rt] + HI] with
    [|HI| < |R[rt]|] and HI of the sign of R[rs] (or zero): the division
    truncates towards zero. *)
Theorem div_quotient_remainder vm w rs rt vm' :
  fetch vm = Ok (w, vm) → extract w OP = 0 → extract w FN = 0x1A →
  registers vm !! Z.to_nat (extract w RS) = Some rs →
  registers vm !! Z.to_nat (extract w RT) = Some rt →
  cycle vm = Ok (tt, vm') →
  s32 rt ≠ 0 ∧
  s32 rs = s32 (lo vm') * s32 rt + s32 (hi vm') ∧
  Z.abs (s32 (hi vm')) < Z.abs (s32 rt) ∧
  0 ≤ s32 (hi vm') * s32 rs.
Proof.
  intros Hf Hop Hfn Hrs Hrt. rewrite (cycle_dispatch _ _ Hf).
  unfold dispatch. rewrite Hop. cbv iota. unfold r_type. rewrite Hfn.
  cbv iota. unfold fn_div.
  erewrite bind_Ok by (unfold reg_at; by rewrite Hrs). cbv zeta.
  erewrite bind_Ok by (unfold reg_at; by rewrite Hrt).
  pose proof (s32_range rs) as Ha. pose proof (s32_range rt) as Hb.
  set (a := s32 rs) in *. set (b := s32 rt) in *.
  destruct (Z.eqb_spec b 0) as [|Hne]; [done|].
  destruct (in_int (Z.quot a b)) eqn:Hq; [|done].
  apply in_int_spec in Hq. cbn [orb negb].
  intros [= <-]. cbn [hi lo].
  pose proof (Z.rem_bound_abs a b Hne) as Hr.
  pose proof (Z.quot_rem' a b) as Hqr.
  pose proof (Z.rem_sign_mul a b Hne) as Hsign.
  rewrite !s32_u32_int by lia.
  split; [done|]. split; [lia|]. split; [lia|done].
Qed.

Lemma div_quotient_remainder_witness :
  fetch div_two_state = Ok (0x0022001A, div_two_state) ∧
  extract 0x0022001A OP = 0 ∧ extract 0x0022001A FN = 0x1A ∧
  registers div_two_state !! Z.to_nat (extract 0x0022001A RS)
  = Some 0xFFFFFFF9 ∧
  registers div_two_state !! Z.to_nat (extract 0x0022001A RT) = Some 2 ∧
  ∃ vm', cycle div_two_state = Ok (tt, vm') ∧
         s32 (lo vm') = -3 ∧ s32 (hi vm') = -1 ∧
         s32 0xFFFFFFF9 = s32 (lo vm') * s32 2 + s32 (hi vm').
Proof.
  split_and!; [reflexivity..|].
  destruct (cycle div_two_state) as [[[] vm']|e| |] eqn:Hc;
    try discriminate.
  exists vm'. split; [reflexivity|].
  destruct (div_quotient_remainder div_two_state 0x0022001A 0xFFFFFFF9 2 vm'
              eq_refl eq_refl eq_refl eq_refl eq_refl Hc) as (_ & H & _).
  injection Hc as <-. split; [reflexivity|split; [reflexivity|exact H]].
Defined.

(** ** HI and LO *)

(** X21.  mthi followed by mfhi, and mtlo followed by mflo, copy the
    source register to the destination register. *)
Theorem mthi_mfhi_round_trip vm w w' r :
  length (registers vm) = 32%nat →
  registers vm !! Z.to_nat (extract w RS) = Some r →
  ∃ vm1 vm2,
    (fn_mthi w ≫= λ _, fn_mfhi w') vm = Ok (tt, vm1) ∧
    registers vm1 !! Z.to_nat (extract w' RD) = Some (u32 r) ∧
    (fn_mtlo w ≫= λ _, fn_mflo w') vm = Ok (tt, vm2) ∧
    registers vm2 !! Z.to_nat (extract w' RD) = Some (u32 r).
Proof.
  intros Hs Hr.
  pose proof (extract_RD_bound w') as Hrd.
  assert (Hat : reg_at (extract w RS) vm = Ok (r, vm))
    by (unfold reg_at; by rewrite Hr).
  do 2 eexists. split_and!.
  - unfold fn_mthi. erewrite bind_Ok; cycle 1.
    { rewrite (bind_Ok _ _ _ _ _ Hat).
      erewrite bind_Ok by reflexivity. reflexivity. }
    unfold fn_mfhi. erewrite bind_Ok by reflexivity.
    erewrite bind_Ok by (by apply reg_set_Ok). reflexivity.
  - cbn [registers hi]. rewrite u32_idem.
    apply list_lookup_insert_eq. lia.
  - unfold fn_mtlo. erewrite bind_Ok; cycle 1.
    { rewrite (bind_Ok _ _ _ _ _ Hat).
      erewrite bind_Ok by reflexivity. reflexivity. }
    unfold fn_mflo. erewrite bind_Ok by reflexivity.
    erewrite bind_Ok by (by apply reg_set_Ok). reflexivity.
  - cbn [registers lo]. rewrite u32_idem.
    apply list_lookup_insert_eq. lia.
Qed.

Lemma mthi_mfhi_round_trip_witness :
  length (registers mthi_state) = 32%nat ∧
  registers mthi_state !! Z.to_nat (extract 0x00200011 RS) = Some 9 ∧
  (final ((fn_mthi 0x00200011 ≫= λ _, fn_mfhi 0x00001810) mthi_state)
     ≫= λ vm, R vm 3) = Some 9.
Proof.
  split; [reflexivity|split; [reflexivity|]].
  destruct (mthi_mfhi_round_trip mthi_state 0x00200011 0x00001810 9
              eq_refl eq_refl) as (vm1 & vm2 & H1 & HR & _).
  rewrite H1. exact HR.
Defined.

(** ** The driver *)

Lemma cycles_add n k vm :
  cycles (n + k) vm = (cycles n ≫= λ _, cycles k) vm.
Proof.
  revert vm. induction n as [|n IH]; intros vm; simpl.
  - reflexivity.
  - unfold mbind, M_bind.
    destruct (cycle vm) as [[[] vm1]|e| |]; [|done..].
    apply IH.
Qed.

(** X22.  A machine that one cycle leaves unchanged (as addi does, or a
    jump to itself) is still unchanged after the 100 cycles of
    [execute]. *)
Theorem execute_stalls_on_fixed_point vm :
  cycle vm = Ok (tt, vm) → execute vm = Ok (tt, vm).
Proof.
  intros Hc. unfold execute. generalize 100%nat. intros n.
  induction n as [|n IH]; simpl; [reflexivity|].
  by rewrite (bind_Ok _ _ _ _ _ Hc).
Qed.

Lemma execute_stalls_on_fixed_point_witness :
  cycle addi_state = Ok (tt, addi_state) ∧
  execute addi_state = Ok (tt, addi_state).
Proof.
  split; [reflexivity|].
  exact (execute_stalls_on_fixed_point addi_state eq_refl).
Defined.

(** X23.  [execute] ends with the outcome of the first cycle that does
    not complete: if fewer than 100 cycles complete and the next one
    throws, exits or is undefined, that is the outcome of [execute]. *)
Theorem execute_stops_at_first_failure n vm vm' :
  (n < 100)%nat → cycles n vm = Ok (tt, vm') → final (cycle vm') = None →
  execute vm = cycle vm'.
Proof.
  intros Hn Hrun Hfail. unfold execute.
  replace 100%nat with (n + S (99 - n))%nat by lia.
  rewrite cycles_add, (bind_Ok _ _ _ _ _ Hrun). simpl.
  unfold mbind, M_bind.
  by destruct (cycle vm') as [[[] vm2]|e| |].
Qed.

Lemma execute_stops_at_first_failure_witness :
  (1 < 100)%nat ∧
  (∃ vm', cycles 1 addiu_state = Ok (tt, vm') ∧ final (cycle vm') = None) ∧
  execute addiu_state = Thrown MemoryOutOfRange.
Proof.
  assert (Hlt : (1 < 100)%nat) by lia.
  split; [exact Hlt|].
  pose (vm' := mkVM (<[8%nat := 5]> (registers addiu_state))
                    (memory addiu_state) 4 0 0).
  assert (H1 : cycles 1 addiu_state = Ok (tt, vm')) by reflexivity.
  assert (H2 : final (cycle vm') = None) by reflexivity.
  split; [by exists vm'|].
  by rewrite (execute_stops_at_first_failure 1 addiu_state vm' Hlt H1 H2).
Defined.

(** X24.  A machine that was constructed but never loaded has an empty
    memory: its first cycle, and so [execute], throws out of range at the
    fetch, whatever the entry point. *)
Theorem execute_unloaded_machine_throws entry :
  cycle (VirtualMachine_new entry) = Thrown MemoryOutOfRange ∧
  execute (VirtualMachine_new entry) = Thrown MemoryOutOfRange.
Proof.
  assert (Hc : cycle (VirtualMachine_new entry) = Thrown MemoryOutOfRange).
  { unfold cycle. apply bind_Thrown. unfold fetch.
    erewrite bind_Ok by reflexivity. apply bind_Thrown.
    unfold mem_at. cbn [memory VirtualMachine_new]. by rewrite lookup_nil. }
  split; [done|]. unfold execute. simpl. by apply bind_Thrown.
Qed.

(** ** xori *)

Lemma lxor_is_word a b : is_word a → is_word b → is_word (Z.lxor a b).
Proof.
  unfold is_word. intros Ha Hb.
  assert (H : Z.lxor a b = Z.lxor a b mod 2 ^ 32).
  { rewrite <- Z.land_ones by done. apply Z.bits_inj'. intros n Hn.
    rewrite Z.land_spec, Z.lxor_spec.
    destruct (Z.lt_ge_cases n 32).
    - rewrite Z.ones_spec_low by lia. by rewrite andb_true_r.
    - rewrite Z.ones_spec_high, andb_false_r by lia.
      rewrite <- (Z.mod_small a (2 ^ 32)), <- (Z.mod_small b (2 ^ 32)) by done.
      by rewrite !Z.mod_pow2_bits_high by lia. }
  rewrite H. by apply Z.mod_pos_bound.
Qed.

(** X25.  xori sign-extends its immediate: for imm16 below 0x8000 the RT
    register gets [R[rs] xor imm16], and from 0x8000 on
    [R[rs] xor (0xFFFF0000 + imm16)], so the upper halfword of the
    register is inverted. *)
Theorem xori_sign_extends vm w rs :
  length (registers vm) = 32%nat → fetch vm = Ok (w, vm) →
  extract w OP = 0x0E →
  registers vm !! Z.to_nat (extract w RS) = Some rs → is_word rs →
  cycle vm
  = Ok (tt, mkVM (<[Z.to_nat (extract w RT)
                    := Z.lxor rs (if extract w IMMD <? 2 ^ 15
                                  then extract w IMMD
                                  else 0xFFFF0000 + extract w IMMD)]>
                    (registers vm))
               (memory vm) (u32 (ip vm + 4)) (hi vm) (lo vm)).
Proof.
  intros Hs Hf Hop Hrs Hword. rewrite (cycle_dispatch _ _ Hf).
  unfold dispatch. rewrite Hop. cbv iota. unfold op_xori.
  erewrite bind_Ok by (unfold reg_at; by rewrite Hrs). cbv zeta.
  erewrite bind_Ok by (apply reg_set_Ok; [done|apply extract_RT_bound]).
  pose proof (extract_IMMD_bound w) as Hi.
  assert (Hext : u32 (s16 (extract w IMMD))
                 = if extract w IMMD <? 2 ^ 15 then extract w IMMD
                   else 0xFFFF0000 + extract w IMMD).
  { unfold s16, u16. rewrite (Z.mod_small (extract w IMMD)) by done.
    destruct (Z.ltb_spec (extract w IMMD) (2 ^ 15)).
    - apply u32_small. lia.
    - unfold u32.
      replace (extract w IMMD - 2 ^ 16)
        with (0xFFFF0000 + extract w IMMD + (-1) * 2 ^ 32) by lia.
      rewrite Z_mod_plus_full. apply Z.mod_small. lia. }
  rewrite Hext.
  rewrite (u32_small (Z.lxor rs _)); [reflexivity|].
  apply lxor_is_word; [done|].
  unfold is_word. destruct (extract w IMMD <? 2 ^ 15); lia.
Qed.

Lemma xori_sign_extends_witness :
  length (registers xori_state) = 32%nat ∧
  fetch xori_state = Ok (0x38228000, xori_state) ∧
  extract 0x38228000 OP = 0x0E ∧
  registers xori_state !! Z.to_nat (extract 0x38228000 RS) = Some 0 ∧
  is_word 0 ∧
  (final (cycle xori_state) ≫= λ vm, R vm 2) = Some 0xFFFF8000.
Proof.
  assert (H0 : is_word 0) by (unfold is_word; lia).
  split_and!; [reflexivity..|exact H0|].
  by rewrite (xori_sign_extends xori_state 0x38228000 0
                eq_refl eq_refl eq_refl eq_refl H0).
Defined.

(** ** Witnesses for the decoder and the fetch *)

Lemma extract_fields_reassemble_witness :
  0 ≤ 0x00221820 < 2 ^ 32 ∧
  0x00221820
  = extract 0x00221820 OP * 2 ^ 26 + extract 0x00221820 RS * 2 ^ 21
    + extract 0x00221820 RT * 2 ^ 16 + extract 0x00221820 RD * 2 ^ 11
    + extract 0x00221820 SHMT * 2 ^ 6 + extract 0x00221820 FN.
Proof.
  assert (H : 0 ≤ 0x00221820 < 2 ^ 32) by lia.
  split; [exact H|].
  exact (proj1 (extract_fields_reassemble 0x00221820 H)).
Defined.

Lemma fetch_big_endian_witness :
  0 ≤ ip addiu_state ∧ ip addiu_state + 3 < 2 ^ 32 ∧
  memory addiu_state = [0x24; 0x08; 0x00; 0x05] ∧
  fetch addiu_state = Ok (0x24080005, addiu_state).
Proof.
  assert (Hb : ∀ b, (b = 0x24 ∨ b = 0x08 ∨ b = 0x00 ∨ b = 0x05) →
               0 ≤ b < 2 ^ 8) by lia.
  assert (H0 : 0 ≤ ip addiu_state) by (vm_compute; discriminate).
  assert (H3 : ip addiu_state + 3 < 2 ^ 32) by reflexivity.
  split; [exact H0|split; [exact H3|split; [reflexivity|]]].
  exact (fetch_big_endian addiu_state 0x24 0x08 0x00 0x05 H0 H3
           eq_refl eq_refl eq_refl eq_refl
           (Hb _ (or_introl eq_refl))
           (Hb _ (or_intror (or_introl eq_refl)))
           (Hb _ (or_intror (or_intror (or_introl eq_refl))))
           (Hb _ (or_intror (or_intror (or_intror eq_refl))))).
Defined.

Lemma fetch_bounds_witness :
  (0 ≤ ip addiu_state ∧ ip addiu_state + 3 < 2 ^ 32 ∧
   ip addiu_state + 3 < Z.of_nat (length (memory addiu_state)) ∧
   ∃ w, fetch addiu_state = Ok (w, addiu_state) ∧ 0 ≤ w < 2 ^ 32) ∧
  (Z.of_nat (length (memory (boot [0x24; 0x08] 0))) ≤ ip (boot [0x24; 0x08] 0) + 3
   ∧ fetch (boot [0x24; 0x08] 0) = Thrown MemoryOutOfRange).
Proof.
  assert (H0 : 0 ≤ ip addiu_state) by (vm_compute; discriminate).
  assert (H3 : ip addiu_state + 3 < 2 ^ 32) by reflexivity.
  assert (Hin : ip addiu_state + 3 < Z.of_nat (length (memory addiu_state)))
    by reflexivity.
  assert (H0' : 0 ≤ ip (boot [0x24; 0x08] 0)) by (vm_compute; discriminate).
  assert (H3' : ip (boot [0x24; 0x08] 0) + 3 < 2 ^ 32) by reflexivity.
  assert (Hout : Z.of_nat (length (memory (boot [0x24; 0x08] 0)))
                 ≤ ip (boot [0x24; 0x08] 0) + 3)
    by (vm_compute; discriminate).
  split.
  - split; [exact H0|split; [exact H3|split; [exact Hin|]]].
    exact (proj2 (fetch_bounds addiu_state H0 H3) Hin).
  - split; [exact Hout|].
    exact (proj1 (proj1 (fetch_bounds (boot [0x24; 0x08] 0) H0' H3') Hout)).
Defined.
